(** * useBigIntInput: masking engine, caret resolver, input controller and
      linear history stack.

    Shallow embedding of [useBigIntInput.ts] and [useStateWithHistory.ts].
    JavaScript strings are lists of characters ([str]). The engine tells
    apart digits, the two separators, the minus sign and word characters,
    all of them ASCII, and treats every other character alike, so a
    character is an [ascii]. Carets and history indices are JavaScript
    numbers holding integers and are kept in [Z]; the number of decimals is
    a non-negative count; a bigint is a [Z]. *)

From Stdlib Require Import Ascii String List ZArith Lia Bool Arith.
Import ListNotations.
Local Open Scope Z_scope.

(** ** JavaScript string primitives *)

Definition str := list ascii.

Notation "'js:' s" := (list_ascii_of_string s) (at level 9, s at level 0, format "'js:' s").

(** [s.length], for strings and arrays alike. *)
Definition len {A : Type} (s : list A) : Z := Z.of_nat (length s).

Fixpoint str_eqb (a b : str) : bool :=
  match a, b with
  | [], [] => true
  | x :: a', y :: b' => Ascii.eqb x y && str_eqb a' b'
  | _, _ => false
  end.

(** [\d] *)
Definition isDigit (c : ascii) : bool :=
  let n := nat_of_ascii c in (48 <=? n)%nat && (n <=? 57)%nat.

(** [\w], as used by the word-boundary assertions [\b] and [\B]. *)
Definition isWord (c : ascii) : bool :=
  let n := nat_of_ascii c in
  isDigit c
  || ((65 <=? n)%nat && (n <=? 90)%nat)
  || ((97 <=? n)%nat && (n <=? 122)%nat)
  || (n =? 95)%nat.

(** [s.split(sep)] for a one-character separator: never empty,
    [''.split(sep)] is [['']]. *)
Fixpoint split (sep : ascii) (s : str) : list str :=
  match s with
  | [] => [[]]
  | c :: r =>
      if Ascii.eqb c sep then [] :: split sep r
      else match split sep r with
           | p :: ps => (c :: p) :: ps
           | [] => [[c]]
           end
  end.

(** [parts.join('')] *)
Definition join_empty (parts : list str) : str := concat parts.

(** [s.replaceAll(c, '')] *)
Definition removeAll (c : ascii) (s : str) : str :=
  filter (fun x => negb (Ascii.eqb x c)) s.

(** [s.replace(c, d)]: only the first occurrence is replaced. *)
Fixpoint replaceFirst (c d : ascii) (s : str) : str :=
  match s with
  | [] => []
  | x :: r => if Ascii.eqb x c then d :: r else x :: replaceFirst c d r
  end.

(** [s.endsWith(c)] *)
Definition endsWith (c : ascii) (s : str) : bool :=
  match rev s with
  | x :: _ => Ascii.eqb x c
  | [] => false
  end.

(** [s.startsWith(c)] *)
Definition startsWith (c : ascii) (s : str) : bool :=
  match s with
  | x :: _ => Ascii.eqb x c
  | [] => false
  end.

(** Relative index of [slice]: negative counts from the end, then clamped
    to [0, length]. *)
Definition relIndex {A : Type} (s : list A) (k : Z) : nat :=
  if k <? 0 then Z.to_nat (Z.max (len s + k) 0)
  else Z.to_nat (Z.min k (len s)).

(** [s.slice(from, to)], for strings and arrays alike. *)
Definition slice {A : Type} (s : list A) (from to : Z) : list A :=
  let a := relIndex s from in
  let b := relIndex s to in
  firstn (b - a) (skipn a s).

(** [s.slice(from)] *)
Definition sliceFrom {A : Type} (s : list A) (from : Z) : list A :=
  skipn (relIndex s from) s.

(** [s.substring(0, n)] for a non-negative count [n]. *)
Definition substring0 (s : str) (n : nat) : str := firstn n s.

(** [s[i]]: [None] is [undefined]. *)
Definition charAt (s : str) (i : Z) : option ascii :=
  if i <? 0 then None else nth_error s (Z.to_nat i).

(** ** Formatting options *)

(** The type admits exactly two values:
    [{ decimalSeparator: '.', thousandsSeparator: ',' }] and
    [{ decimalSeparator: ',', thousandsSeparator: '.' }]. *)
Inductive FormattingOptions : Type :=
  | PeriodDecimal
  | CommaDecimal.

Definition decimalSeparator (o : FormattingOptions) : ascii :=
  match o with PeriodDecimal => "."%char | CommaDecimal => ","%char end.

Definition thousandsSeparator (o : FormattingOptions) : ascii :=
  match o with PeriodDecimal => ","%char | CommaDecimal => "."%char end.

(** ** Decimal text engine *)

(** The lookahead [(?=(\d{3})+(?!\d))] tried at the head of [s]: one or more
    groups of three digits, the last one not followed by a digit. *)
Fixpoint groupsOfThree (s : str) : bool :=
  match s with
  | d1 :: d2 :: d3 :: rest =>
      isDigit d1 && isDigit d2 && isDigit d3
      && (negb (match rest with c :: _ => isDigit c | [] => false end)
          || groupsOfThree rest)
  | _ => false
  end.

(** [\B] between [prev] (the character before the position, if any) and
    [next]: both sides are word characters, or neither is. *)
Definition nonBoundary (prev next : option ascii) : bool :=
  let w o := match o with Some c => isWord c | None => false end in
  Bool.eqb (w prev) (w next).

(** [whole.replace(/\B(?=(\d{3})+(?!\d))/g, sep)]: the pattern is empty, so
    [sep] is inserted at every position where it matches. At the end of the
    string the lookahead has nothing to read. *)
Fixpoint insertSeparators (sep : ascii) (prev : option ascii) (s : str) : str :=
  match s with
  | [] => []
  | c :: rest =>
      (if nonBoundary prev (Some c) && groupsOfThree s then [sep] else [])
      ++ c :: insertSeparators sep (Some c) rest
  end.

Definition mask (value : str) (options : FormattingOptions) : str :=
  match split (decimalSeparator options) value with
  | whole :: fraction :: _ =>
      insertSeparators (thousandsSeparator options) None whole
      ++ decimalSeparator options :: fraction
  | whole :: [] => insertSeparators (thousandsSeparator options) None whole
  | [] => []
  end.

Definition unmask (value : str) (options : FormattingOptions) : str :=
  removeAll (thousandsSeparator options) value.

Definition toNumericString (value : str) (decimals : nat)
    (options : FormattingOptions) : str :=
  let decimalSeparator := decimalSeparator options in
  let thousandsSeparator := thousandsSeparator options in
  if str_eqb value [decimalSeparator] then []
  else
    let value :=
      if endsWith thousandsSeparator value
      then slice value 0 (-1) ++ [decimalSeparator]
      else value in
    match
      split decimalSeparator
        (filter (fun c => isDigit c || Ascii.eqb c decimalSeparator) value)
    with
    | whole :: [] => whole
    | whole :: fraction =>
        let fractionString := substring0 (join_empty fraction) decimals in
        whole ++ decimalSeparator :: fractionString
    | [] => []
    end.

(** The unmasked texts: digits, then possibly the decimal separator and at
    most [scale] digits. *)
Inductive NumericString (o : FormattingOptions) (scale : nat) : str -> Prop :=
  | numeric_whole (w : str) :
      forallb isDigit w = true -> NumericString o scale w
  | numeric_fraction (w f : str) :
      forallb isDigit w = true -> forallb isDigit f = true ->
      (length f <= scale)%nat ->
      NumericString o scale (w ++ decimalSeparator o :: f).

Definition removeCharAt (value : str) (index : Z) : str :=
  slice value 0 (index - 1) ++ sliceFrom value index.

Definition adjustCursorPosition (inputValue maskedInput : str) (cursor : Z) : Z :=
  let cursorPosition := cursor in
  let cursorPosition :=
    if len inputValue <? len maskedInput then cursorPosition + 1
    else cursorPosition in
  let cursorPosition :=
    if len inputValue >? len maskedInput then cursorPosition - 1
    else cursorPosition in
  if cursorPosition >? 0 then cursorPosition else 0.

(** The change event of the text field, reduced to what the handler reads:
    [e.target.value], [e.target.selectionStart] ([None] is [null]) and
    [e.nativeEvent.inputType] ([None] when the native event has no such
    property). *)
Record ChangeEvent : Type := {
  target_value : str;
  target_selectionStart : option nat;
  nativeEvent_inputType : option string
}.

(** A single-character backward deletion reported with the caret at
    [caret]. *)
Definition backwardDeletion (raw : str) (caret : nat) : ChangeEvent :=
  {| target_value := raw;
     target_selectionStart := Some caret;
     nativeEvent_inputType := Some "deleteContentBackward"%string |}.

Record MaskedInput : Type := {
  numericValue : str;
  maskedValue : str;
  cursor : Z
}.

(** The state kept by [useBigIntInput]. *)
Module Input.
Record t : Type := {
  internalValue : str;
  cursor : Z
}.
End Input.

(** ** BigInt and its decimal text *)

Definition digitChar (d : Z) : ascii := ascii_of_nat (48 + Z.to_nat d).

Definition digitValue (c : ascii) : Z := Z.of_nat (nat_of_ascii c) - 48.

(** Decimal digits of a non-negative [n], most significant first; [fuel]
    bounds the number of digits. *)
Fixpoint digitsOf (fuel : nat) (n : Z) (acc : str) : str :=
  match fuel with
  | O => acc
  | S f =>
      let acc' := digitChar (n mod 10) :: acc in
      if n / 10 =? 0 then acc' else digitsOf f (n / 10) acc'
  end.

(** [value.toString()] on a bigint. A number below [2^k] has at most [k]
    decimal digits, so the fuel never runs out. *)
Definition BigInt_toString (value : Z) : str :=
  let digits n := digitsOf (S (Z.to_nat (Z.log2 n))) n [] in
  if value <? 0 then "-"%char :: digits (- value) else digits value.

Definition digitsValue (s : str) : Z :=
  fold_left (fun acc c => 10 * acc + digitValue c) s 0.

(** [BigInt(s)] on the texts the parser builds: an optional minus sign and
    decimal digits. [BigInt('')] is [0n]; anything else is a [SyntaxError],
    here [None]. *)
Definition BigInt (s : str) : option Z :=
  if startsWith "-" s then
    match tl s with
    | [] => None
    | r => if forallb isDigit r then Some (- digitsValue r) else None
    end
  else if forallb isDigit s then Some (digitsValue s) else None.

(** [s.padStart(n, '0')] *)
Definition padStart0 (s : str) (n : nat) : str :=
  repeat "0"%char (n - length s) ++ s.

(** [s.padEnd(n, '0')] *)
Definition padEnd0 (s : str) (n : nat) : str :=
  s ++ repeat "0"%char (n - length s).

(** [s.replace(/(0+)$/, '')] *)
Fixpoint stripTrailingZeros (s : str) : str :=
  match s with
  | [] => []
  | c :: r =>
      match stripTrailingZeros r with
      | [] => if Ascii.eqb c "0" then [] else [c]
      | r' => c :: r'
      end
  end.

(** The text written after the integer part by [formatUnits]: nothing when
    the fraction is empty, else a period and the fraction. *)
Definition fractionSuffix (fraction : str) : str :=
  match fraction with [] => [] | _ => "."%char :: fraction end.

Fixpoint dropDigits (s : str) : str :=
  match s with
  | c :: r => if isDigit c then dropDigits r else s
  | [] => []
  end.

(** The input check of [viemParseUnits], a regular expression tested on
    [s]: an optional minus sign, any number of digits, an optional period,
    any number of digits, and nothing else. *)
Definition isDecimalNumber (s : str) : bool :=
  let s := if startsWith "-" s then tl s else s in
  let s := dropDigits s in
  let s := if startsWith "." s then tl s else s in
  forallb isDigit s.

Definition bind {A B : Type} (o : option A) (k : A -> option B) : option B :=
  match o with Some a => k a | None => None end.

Notation "x <- o ;; k" := (bind o (fun x => k))
  (at level 61, o at next level, right associativity).
Notation "' p <- o ;; k" := (bind o (fun x => match x with p => k end))
  (at level 61, p pattern, o at next level, right associativity).

(** ** The [viem] package *)

Module Viem.

Section Rounding.

(** [Math.round(Number(s))] on a decimal literal with at least one digit.
    The conversion goes through a double, so its result is not fixed here. *)
Variable roundLiteral : str -> Z.

(** [Math.round(Number(s))]; [None] is [NaN], which is what [Number('.')]
    gives. *)
Definition Math_round_Number (s : str) : option Z :=
  if str_eqb s ["."%char] then None else Some (roundLiteral s).

(** Modelled from the spec: [formatUnits] is imported from the [viem]
    package, which is not part of the sources. It is [formatScaledValue]:
    the decimal text of [value] with the point shifted [decimals] places to
    the left, trailing fraction zeros dropped and the point always written
    as a period, following the package's implementation. *)
Definition formatUnits (value : Z) (decimals : nat) : str :=
  let display := BigInt_toString value in
  let negative := startsWith "-" display in
  let display := if negative then sliceFrom display 1 else display in
  let display := padStart0 display decimals in
  let integer := slice display 0 (len display - Z.of_nat decimals) in
  let fraction := sliceFrom display (len display - Z.of_nat decimals) in
  let fraction := stripTrailingZeros fraction in
  (if negative then ["-"%char] else [])
  ++ (match integer with [] => ["0"%char] | _ => integer end)
  ++ fractionSuffix fraction.

(** Modelled from the spec: [parseUnits] of the [viem] package, imported as
    [viemParseUnits] and not part of the sources. It is [parseScaledValue]
    on period-separated text: the integer obtained by shifting the point
    [decimals] places to the right, following the package's implementation
    (which rounds a fraction longer than [decimals]). [None] stands for a
    thrown error. *)
Definition parseUnits (value : str) (decimals : nat) : option Z :=
  if negb (isDecimalNumber value) then None
  else
    let parts := split "."%char value in
    let integer := match parts with i :: _ => i | [] => [] end in
    let fraction := match parts with _ :: f :: _ => f | _ => ["0"%char] end in
    let negative := startsWith "-" integer in
    let integer := if negative then sliceFrom integer 1 else integer in
    let fraction := stripTrailingZeros fraction in
    ' (integer, fraction) <-
      (if (decimals =? 0)%nat then
         match Math_round_Number ("."%char :: fraction) with
         | Some rounded =>
             if rounded =? 1 then
               i <- BigInt integer ;; Some (BigInt_toString (i + 1), [])
             else Some (integer, [])
         | None => Some (integer, [])
         end
       else if (decimals <? length fraction)%nat then
         let left := slice fraction 0 (Z.of_nat decimals - 1) in
         let unit := slice fraction (Z.of_nat decimals - 1) (Z.of_nat decimals) in
         let right := sliceFrom fraction (Z.of_nat decimals) in
         rounded <- Math_round_Number (unit ++ "."%char :: right) ;;
         fraction <-
           (if rounded >? 9 then
              l <- BigInt left ;;
              Some (padStart0 (BigInt_toString (l + 1) ++ ["0"%char])
                      (length left + 1))
            else Some (left ++ BigInt_toString rounded)) ;;
         ' (integer, fraction) <-
           (if (decimals <? length fraction)%nat then
              i <- BigInt integer ;;
              Some (BigInt_toString (i + 1), sliceFrom fraction 1)
            else Some (integer, fraction)) ;;
         Some (integer, slice fraction 0 (Z.of_nat decimals))
       else Some (integer, padEnd0 fraction decimals)) ;;
    BigInt ((if negative then ["-"%char] else []) ++ integer ++ fraction).

End Rounding.

End Viem.

(** ** The hook *)

Section Hook.

(** The options resolved once from the runtime locale; every function of the
    engine takes them as its default [options]. *)
Variable formattingOptions : FormattingOptions.

(** The two functions imported from [viem/utils], which is not part of the
    sources: [formatUnits(value, decimals)] and [parseUnits(value, decimals)],
    the latter imported as [viemParseUnits]; [None] stands for a thrown
    error. [Viem] above models them. *)
Variable formatUnits : Z -> nat -> str.
Variable viemParseUnits : str -> nat -> option Z.

Definition parseUnits (value : str) (decimals : nat) : option Z :=
  viemParseUnits (replaceFirst "," "." value) decimals.

Definition handleMaskedInput (e : ChangeEvent) (decimals : nat)
    (options : FormattingOptions) : MaskedInput :=
  let thousandsSeparator := thousandsSeparator options in
  let rawInputValue := target_value e in
  let numericValue := toNumericString rawInputValue decimals formattingOptions in
  let maskedValue := mask numericValue formattingOptions in
  let cursor :=
    match target_selectionStart e with
    | Some n => Z.of_nat n
    | None => len maskedValue
    end in
  if match nativeEvent_inputType e with
     | Some t => String.eqb t "deleteContentBackward"
     | None => false
     end
     && match charAt maskedValue cursor with
        | Some c => Ascii.eqb c thousandsSeparator
        | None => false
        end
  then
    let thousandSeparatorsBeforeCursor :=
      Z.of_nat
        (length (split thousandsSeparator (slice maskedValue 0 cursor))) - 1 in
    let newNumericValue :=
      removeCharAt numericValue (cursor - thousandSeparatorsBeforeCursor) in
    let newMaskedInput := mask newNumericValue formattingOptions in
    let newCursor :=
      if len maskedValue - len newMaskedInput >? 1 then cursor - 2
      else cursor - 1 in
    {| numericValue := newNumericValue;
       maskedValue := newMaskedInput;
       cursor := if newCursor >? 0 then newCursor else 0 |}
  else
    {| numericValue := numericValue;
       maskedValue := maskedValue;
       cursor := adjustCursorPosition rawInputValue maskedValue cursor |}.

(** *** The input synchronization controller *)

(** One call of [onChange(value, rawValue, changedFromProps)]. *)
Record Notification : Type := {
  n_value : Z;
  n_rawValue : str;
  n_changedFromProps : bool
}.

(** Truthiness of [value?: bigint]: [undefined] and [0n] are falsy. *)
Definition truthy (value : option Z) : bool :=
  match value with
  | Some v => negb (v =? 0)
  | None => false
  end.

(** The initializer of [useState]. *)
Definition initialInput (value : option Z) (decimals : nat) : Input.t :=
  let internalValue :=
    match value with
    | Some v =>
        if truthy (Some v) then mask (formatUnits v decimals) formattingOptions
        else []
    | None => []
    end in
  {| Input.internalValue := internalValue; Input.cursor := len internalValue |}.

(** The reconciliation done while rendering with props [value] and
    [decimals] in state [input]: the state after [setInput] and the calls of
    [onChange] it made. [None] when [parseUnits] throws. *)
Definition reconcile (value : option Z) (decimals : nat) (input : Input.t)
    : option (Input.t * list Notification) :=
  match value with
  | None => Some (input, [])
  | Some value =>
      parsed <- parseUnits (unmask (Input.internalValue input) formattingOptions)
                  decimals ;;
      if negb (value =? parsed) then
        let maskedValue := mask (formatUnits value decimals) formattingOptions in
        let newInternalValue := if value =? 0 then [] else maskedValue in
        Some ({| Input.internalValue := newInternalValue;
                 Input.cursor := Input.cursor input |},
              [ {| n_value := value;
                   n_rawValue := newInternalValue;
                   n_changedFromProps := true |} ])
      else Some (input, [])
  end.

(** The [onChange] handler given to the text field: the state it sets and
    the notification it sends, [None] when [parseUnits] throws before the
    notification. *)
Definition onChange (e : ChangeEvent) (decimals : nat)
    : Input.t * option Notification :=
  let r := handleMaskedInput e decimals formattingOptions in
  ({| Input.internalValue := maskedValue r; Input.cursor := cursor r |},
   value <- parseUnits (numericValue r) decimals ;;
   Some {| n_value := value;
           n_rawValue := maskedValue r;
           n_changedFromProps := false |}).

End Hook.

(** ** Linear history stack *)

(** The keyboard event, reduced to what the listeners read. *)
Record KeyboardEvent : Type := {
  metaKey : bool;
  shiftKey : bool;
  code : string
}.

Module StateWithHistory.

Section Generic.

(** The values of type [T], compared with [===]; [undefined] is what
    reading an array out of range gives. *)
Variable T : Type.
Variable T_eq_dec : forall a b : T, {a = b} + {a <> b}.
Variable undefined : T.

(** [state] is the value of [useState], [history] and [index] are the
    contents of the two refs. *)
Record History : Type := {
  state : T;
  history : list T;
  index : Z
}.

(** The argument of [set]: a value or an updater function. *)
Inductive SetArg : Type :=
  | Value (newState : T)
  | Updater (f : T -> T).

(** [a[i]] *)
Definition at_index (a : list T) (i : Z) : T :=
  if i <? 0 then undefined else nth (Z.to_nat i) a undefined.

Definition initial (initialState : T) : History :=
  {| state := initialState; history := [initialState]; index := 0 |}.

(** Every operation returns the hook after the next render together with
    the calls of [setState] it made. *)
Definition set (_newState : SetArg) (h : History) : History * list T :=
  let newState :=
    match _newState with
    | Updater f => f (state h)
    | Value v => v
    end in
  if T_eq_dec newState (state h) then (h, [])
  else
    let history := slice (history h) 0 (index h + 1) in
    let history := history ++ [newState] in
    ({| state := newState; history := history; index := len history - 1 |},
     [newState]).

Definition undo (h : History) : History * list T :=
  if index h =? 0 then (h, [])
  else
    let value := at_index (history h) (index h - 1) in
    ({| state := value; history := history h; index := index h - 1 |},
     [value]).

Definition redo (h : History) : History * list T :=
  let value := at_index (history h) (index h + 1) in
  if T_eq_dec value undefined then (h, [])
  else
    ({| state := value; history := history h; index := index h + 1 |},
     [value]).

(** The copy of the hook in the demo application
    ([src/useStateWithHistory.ts]): [set] takes a plain value and has no
    equality test; [undo] and [redo] are the same. *)
Definition set_app (newState : T) (h : History) : History * list T :=
  let history := slice (history h) 0 (index h + 1) in
  let history := history ++ [newState] in
  ({| state := newState; history := history; index := len history - 1 |},
   [newState]).

(** The pointer is inside the list of entries. *)
Definition well_formed (h : History) : Prop :=
  0 <= index h < len (history h) /\ history h <> [].

(** The calls a host can make, one per event. *)
Inductive Op : Type :=
  | OpSet (_newState : SetArg)
  | OpUndo
  | OpRedo.

Definition step (h : History) (op : Op) : History :=
  fst match op with
      | OpSet a => set a h
      | OpUndo => undo h
      | OpRedo => redo h
      end.

(** A finite sequence of calls, in order. *)
Definition run (ops : list Op) (h : History) : History :=
  fold_left step ops h.

(** The value a [set] resolves its argument to. *)
Definition resolve (a : SetArg) (h : History) : T :=
  match a with Value v => v | Updater f => f (state h) end.

(** The entries up to the pointer, the ones a [set] keeps. *)
Definition keptEntries (h : History) : list T :=
  firstn (S (Z.to_nat (index h))) (history h).

(** The current value is the entry under the pointer. *)
Definition coherent (h : History) : Prop :=
  state h = at_index (history h) (index h).

(** The calls on the copy of the hook in the demo application, whose [set]
    takes a plain value. *)
Inductive AppOp : Type :=
  | AppSet (newState : T)
  | AppUndo
  | AppRedo.

Definition step_app (h : History) (op : AppOp) : History :=
  fst match op with
      | AppSet v => set_app v h
      | AppUndo => undo h
      | AppRedo => redo h
      end.

Definition run_app (ops : list AppOp) (h : History) : History :=
  fold_left step_app ops h.

(** The [keydown] listener bound around the hook: the history after the
    event, the calls of [setState], and whether [preventDefault] was
    called. *)
Definition onKeyDown (e : KeyboardEvent) (h : History)
    : History * list T * bool :=
  if metaKey e && String.eqb (code e) "KeyZ" then
    (if shiftKey e then redo h else undo h, true)
  else (h, [], false).

End Generic.

Arguments state {T} _.
Arguments history {T} _.
Arguments index {T} _.
Arguments Value {T} _.
Arguments Updater {T} _.
Arguments initial {T} _.
Arguments well_formed {T} _.
Arguments OpSet {T} _.
Arguments OpUndo {T}.
Arguments OpRedo {T}.
Arguments resolve {T} _ _.
Arguments keptEntries {T} _.
Arguments AppSet {T} _.
Arguments AppUndo {T}.
Arguments AppRedo {T}.

End StateWithHistory.

(** JavaScript numbers, as stored in a [useStateWithHistory<number>]. *)
Inductive JsNumber : Type :=
  | Undefined
  | Num (n : Z).

Definition JsNumber_eq_dec (a b : JsNumber) : {a = b} + {a <> b}.
Proof. decide equality. apply Z.eq_dec. Defined.

(** ** Grouping by thousands, as the specification words it *)

(** The thousands separator inserted "every three digits counted from the
    least-significant digit": after a digit, when the digits that remain
    are a positive multiple of three. Written from the specification, to be
    compared with [insertSeparators]. *)
Fixpoint groupFromRight (sep : ascii) (w : str) : str :=
  match w with
  | [] => []
  | c :: r =>
      c :: (if (0 <? length r)%nat && (length r mod 3 =? 0)%nat
            then [sep] else [])
        ++ groupFromRight sep r
  end.

(** ** The swap form of the playground *)

Module Token.
Record Erc20 : Type := {
  name : string;
  symbol : string;
  decimals : nat;
  iconUrl : string;
  address : string;
  chainId : Z
}.
End Token.

Inductive Direction : Type :=
  | sell
  | buy.

Module Swap.
Record State : Type := {
  buyToken : Token.Erc20;
  sellToken : Token.Erc20;
  amount : Z;
  direction : Direction
}.
End Swap.

(** [base.id] of [wagmi/chains]. *)
Definition base_id : Z := 8453.

Definition weth : Token.Erc20 :=
  {| Token.address := "0x4200000000000000000000000000000000000006";
     Token.name := "Wrapped Ether";
     Token.symbol := "WETH";
     Token.decimals := 18;
     Token.chainId := base_id;
     Token.iconUrl := "https://etherscan.io/token/images/weth_28.png" |}.

Definition degen : Token.Erc20 :=
  {| Token.address := "0x4ed4E862860beD51a9570b96d89aF5E1B0Efefed";
     Token.name := "Degen";
     Token.symbol := "DEGEN";
     Token.decimals := 18;
     Token.chainId := base_id;
     Token.iconUrl := "https://basescan.org/token/images/degentips_32.png" |}.

Definition initialState : Swap.State :=
  {| Swap.buyToken := degen;
     Swap.sellToken := weth;
     Swap.direction := sell;
     Swap.amount := 0 |}.

Definition isSameToken (a b : Token.Erc20) : bool :=
  String.eqb (Token.address a) (Token.address b)
  && (Token.chainId a =? Token.chainId b).

(** The updater given to [setSwapState] by
    [onChangeAmount(direction)(amount)]. *)
Definition onChangeAmount (direction : Direction) (amount : Z)
    (currentState : Swap.State) : Swap.State :=
  {| Swap.buyToken := Swap.buyToken currentState;
     Swap.sellToken := Swap.sellToken currentState;
     Swap.amount := amount;
     Swap.direction := direction |}.

(** The updater given to [setSwapState] by [onChangeToken(direction)(token)].
    [sellToken] and [buyToken] are the ones of the render the handler was
    made in; the hook calls the updater with the state of that same
    render, so they are the tokens of [currentState]. *)
Definition onChangeToken (direction : Direction) (token : Token.Erc20)
    (currentState : Swap.State) : Swap.State :=
  let sellToken := Swap.sellToken currentState in
  let buyToken := Swap.buyToken currentState in
  if isSameToken token
       (match direction with
        | buy => Swap.sellToken currentState
        | sell => Swap.buyToken currentState
        end)
  then
    {| Swap.buyToken := sellToken;
       Swap.sellToken := buyToken;
       Swap.amount := Swap.amount currentState;
       Swap.direction := Swap.direction currentState |}
  else
    match direction with
    | buy =>
        {| Swap.buyToken := token;
           Swap.sellToken := Swap.sellToken currentState;
           Swap.amount := Swap.amount currentState;
           Swap.direction := Swap.direction currentState |}
    | sell =>
        {| Swap.buyToken := Swap.buyToken currentState;
           Swap.sellToken := token;
           Swap.amount := Swap.amount currentState;
           Swap.direction := Swap.direction currentState |}
    end.

(** The conversion of an amount between two scales, from the later
    version of the playground. [BigInt(Math.pow(10, k))] is the power of ten
    itself up to 10^22, the last one a double holds exactly; beyond, the
    double is not a power of ten, and from 10^309 on it is [Infinity], which
    [BigInt] rejects: that part is [bigPow10], with [None] for the thrown
    error. A bigint division truncates toward zero and throws on a zero
    divisor. *)
Section Playground.

Variable bigPow10 : nat -> option Z.

Definition scaleFactorOf (k : nat) : option Z :=
  if (k <=? 22)%nat then Some (10 ^ Z.of_nat k) else bigPow10 k.

Definition convertDecimals (amount : Z) (fromDecimals toDecimals : nat)
    : option Z :=
  scaleFactor <-
    scaleFactorOf (Z.to_nat (Z.abs (Z.of_nat toDecimals - Z.of_nat fromDecimals))) ;;
  if (fromDecimals <? toDecimals)%nat then Some (amount * scaleFactor)
  else if scaleFactor =? 0 then None
  else Some (Z.quot amount scaleFactor).

End Playground.

(** * Properties *)

Import StateWithHistory.

(** ** Linear history stack *)

Section HistoryFacts.

Variable T : Type.
Variable T_eq_dec : forall a b : T, {a = b} + {a <> b}.
Variable undefined : T.

Local Abbreviation set := (set T T_eq_dec).
Local Abbreviation undo := (undo T undefined).
Local Abbreviation redo := (redo T T_eq_dec undefined).
Local Abbreviation at_index := (at_index T undefined).

Lemma len_app_one (A : Type) (l : list A) (x : A) : len (l ++ [x]) = len l + 1.
Proof. unfold len. rewrite length_app. simpl. lia. Qed.

Lemma len_nonneg (A : Type) (l : list A) : 0 <= len l.
Proof. unfold len. lia. Qed.

Lemma at_index_out_of_range (a : list T) (i : Z) :
  len a <= i -> at_index a i = undefined.
Proof.
  intros Hi. unfold StateWithHistory.at_index.
  destruct (i <? 0); [reflexivity|].
  apply nth_overflow. unfold len in Hi. lia.
Qed.

Lemma well_formed_initial (x : T) : well_formed (initial x).
Proof. split; [cbn; lia | discriminate]. Qed.

Lemma well_formed_set (a : SetArg T) (h : History T) :
  well_formed h -> well_formed (fst (set a h)).
Proof.
  intros Hwf. unfold StateWithHistory.set.
  destruct (T_eq_dec _ _); [exact Hwf|].
  unfold well_formed. cbn [fst index history]. split.
  - rewrite len_app_one.
    pose proof (len_nonneg _ (slice (history h) 0 (index h + 1))). lia.
  - intros E. apply app_eq_nil in E. destruct E as [_ E]. discriminate.
Qed.

Lemma well_formed_undo (h : History T) :
  well_formed h -> well_formed (fst (undo h)).
Proof.
  intros [Hi Hne]. unfold StateWithHistory.undo.
  destruct (index h =? 0) eqn:E; [split; assumption|].
  apply Z.eqb_neq in E. unfold well_formed. cbn [fst index history].
  split; [lia | assumption].
Qed.

Lemma well_formed_redo (h : History T) :
  well_formed h -> well_formed (fst (redo h)).
Proof.
  intros [Hi Hne]. unfold StateWithHistory.redo.
  destruct (T_eq_dec _ _) as [E|E]; [split; assumption|].
  unfold well_formed. cbn [fst index history]. split; [|assumption].
  destruct (Z_lt_ge_dec (index h + 1) (len (history h))) as [Hlt|Hge]; [lia|].
  exfalso. apply E. apply at_index_out_of_range. lia.
Qed.

Lemma well_formed_step (h : History T) (op : Op T) :
  well_formed h -> well_formed (step T T_eq_dec undefined h op).
Proof.
  intros Hwf. destruct op; unfold step;
    [apply well_formed_set | apply well_formed_undo | apply well_formed_redo];
    exact Hwf.
Qed.

Lemma well_formed_run (ops : list (Op T)) (h : History T) :
  well_formed h -> well_formed (run T T_eq_dec undefined ops h).
Proof.
  revert h. induction ops as [|op ops IH]; intros h Hwf; [exact Hwf|].
  apply IH. apply well_formed_step. exact Hwf.
Qed.

(** C6. History stack invariant: in every state reached from the initial
    state (entries = [initialValue], index = 0) by any finite sequence of
    set, undo and redo, 0 <= index < entries.length and entries is not
    empty. *)
Theorem history_invariant (initialState : T) (ops : list (Op T)) :
  let h := run T T_eq_dec undefined ops (initial initialState) in
  0 <= index h < len (history h) /\ history h <> [].
Proof.
  apply (well_formed_run ops (initial initialState)).
  apply well_formed_initial.
Qed.

(** X22. Along the way the current value is the entry under the pointer:
    in every state reached from the initial one by any finite sequence of
    set, undo and redo, the state of the hook is entries[index]. *)
Lemma state_is_entry (initialState : T) (ops : list (Op T)) :
  let h := run T T_eq_dec undefined ops (initial initialState) in
  state h = at_index (history h) (index h).
Proof.
  cbv zeta.
  assert (Hgen : forall h, state h = at_index (history h) (index h) ->
            state (run T T_eq_dec undefined ops h)
            = at_index (history (run T T_eq_dec undefined ops h))
                (index (run T T_eq_dec undefined ops h))).
  { induction ops as [|op ops IH]; intros h Hh; [exact Hh|].
    apply IH. destruct op as [a| |]; unfold step.
    - unfold StateWithHistory.set.
      destruct (T_eq_dec _ _); [exact Hh|].
      cbn [fst index history state].
      unfold StateWithHistory.at_index.
      rewrite len_app_one.
      pose proof (len_nonneg _ (slice (history h) 0 (index h + 1))) as Hl.
      destruct (_ <? 0) eqn:E; [apply Z.ltb_lt in E; lia|].
      replace (Z.to_nat (len (slice (history h) 0 (index h + 1)) + 1 - 1))
        with (length (slice (history h) 0 (index h + 1))) by (unfold len; lia).
      rewrite nth_middle. reflexivity.
    - unfold StateWithHistory.undo.
      destruct (index h =? 0); [exact Hh | reflexivity].
    - unfold StateWithHistory.redo.
      destruct (T_eq_dec _ _); [exact Hh | reflexivity]. }
  apply Hgen. reflexivity.
Qed.

(** The library hook: [set] with a value or an updater that resolves to the
    current value changes nothing and calls [setState] not at all. *)
Lemma set_equal_value_noop (h : History T) (a : SetArg T) :
  match a with Value v => v | Updater f => f (state h) end = state h ->
  set a h = (h, []).
Proof.
  intros E. unfold StateWithHistory.set. rewrite E.
  destruct (T_eq_dec _ _); [reflexivity | congruence].
Qed.

End HistoryFacts.

Lemma set_equal_value_noop_witness :
  set JsNumber JsNumber_eq_dec (Value (Num 0)) (initial (Num 0))
  = (initial (Num 0), []).
Proof. apply (set_equal_value_noop JsNumber JsNumber_eq_dec). reflexivity. Defined.

(** C7. History linearity: from entries = [0], index = 0, the calls set(1),
    set(2), undo(), set(3) give entries = [0, 1, 3] and index = 2, and no
    number of redo() calls brings the discarded 2 back: every redo leaves
    this state as it is. *)
Theorem history_linearity :
  run JsNumber JsNumber_eq_dec Undefined
    [OpSet (Value (Num 1)); OpSet (Value (Num 2)); OpUndo; OpSet (Value (Num 3))]
    (initial (Num 0))
  = {| state := Num 3; history := [Num 0; Num 1; Num 3]; index := 2 |}
  /\ forall n : nat,
       run JsNumber JsNumber_eq_dec Undefined (repeat OpRedo n)
         {| state := Num 3; history := [Num 0; Num 1; Num 3]; index := 2 |}
       = {| state := Num 3; history := [Num 0; Num 1; Num 3]; index := 2 |}.
Proof.
  split; [reflexivity|].
  induction n as [|n IH]; [reflexivity|]. exact IH.
Qed.

(** C8, demo application copy of the hook ([src/useStateWithHistory.ts]):
    its [set] has no equality test, so set(0) on entries = [0], index = 0
    grows the entries to [0, 0], moves the pointer to 1 and calls
    [setState]; the library hook leaves that state alone. *)
Theorem app_set_equal_value_grows :
  set_app JsNumber (Num 0) (initial (Num 0))
  = ({| state := Num 0; history := [Num 0; Num 0]; index := 1 |}, [Num 0])
  /\ set JsNumber JsNumber_eq_dec (Value (Num 0)) (initial (Num 0))
     = (initial (Num 0), []).
Proof. split; reflexivity. Qed.

(** ** Caret resolver *)

Lemma adjustCursorPosition_nonneg (inputValue maskedInput : str) (cursor : Z) :
  0 <= adjustCursorPosition inputValue maskedInput cursor.
Proof.
  unfold adjustCursorPosition.
  repeat match goal with |- context [if ?b then _ else _] => destruct b eqn:? end;
    lia.
Qed.

(** C10. No upper clamp on the caret: when the text before and after masking
    have the same length and the incoming caret is beyond the end of the
    masked text, [adjustCursorPosition] returns the caret as it came, which
    is strictly greater than the length of the masked text. *)
Theorem adjustCursorPosition_no_upper_clamp
    (inputValue maskedInput : str) (cursor : Z) :
  len inputValue = len maskedInput ->
  len maskedInput < cursor ->
  adjustCursorPosition inputValue maskedInput cursor = cursor
  /\ len maskedInput < adjustCursorPosition inputValue maskedInput cursor.
Proof.
  intros Hlen Hc. unfold adjustCursorPosition.
  pose proof (len_nonneg _ maskedInput).
  rewrite Hlen, Z.ltb_irrefl.
  replace (len maskedInput >? len maskedInput) with false
    by (symmetry; rewrite Z.gtb_ltb; apply Z.ltb_irrefl).
  destruct (cursor >? 0) eqn:E; [lia|].
  rewrite Z.gtb_ltb in E. apply Z.ltb_ge in E. lia.
Qed.

Lemma adjustCursorPosition_no_upper_clamp_witness :
  adjustCursorPosition js:"abc" js:"abc" 10 = 10
  /\ len js:"abc" < adjustCursorPosition js:"abc" js:"abc" 10.
Proof.
  apply (adjustCursorPosition_no_upper_clamp js:"abc" js:"abc" 10);
    [reflexivity | cbn; lia].
Defined.

(** ** Input synchronization controller *)

Section Controller.

Variable fo : FormattingOptions.
Variable formatUnits : Z -> nat -> str.
Variable viemParseUnits : str -> nat -> option Z.

(** C3. External reconciliation: when the text of the field, unmasked,
    parses to [p] under the scale, a supplied value X equal to [p] leaves
    the text and the caret as they are and sends no notification; a
    supplied value different from [p] replaces the text, keeps the caret
    and sends exactly one notification, flagged as coming from the props. *)
Theorem external_reconciliation
    (X : Z) (decimals : nat) (input : Input.t) (p : Z) :
  parseUnits viemParseUnits (unmask (Input.internalValue input) fo) decimals
    = Some p ->
  (X = p ->
   reconcile fo formatUnits viemParseUnits (Some X) decimals input
   = Some (input, []))
  /\ (X <> p ->
      let newInternalValue :=
        if X =? 0 then [] else mask (formatUnits X decimals) fo in
      reconcile fo formatUnits viemParseUnits (Some X) decimals input
      = Some ({| Input.internalValue := newInternalValue;
                 Input.cursor := Input.cursor input |},
              [ {| n_value := X;
                   n_rawValue := newInternalValue;
                   n_changedFromProps := true |} ])).
Proof.
  intros Hp. unfold reconcile, bind. rewrite Hp. split.
  - intros ->. rewrite Z.eqb_refl. reflexivity.
  - intros Hne. apply Z.eqb_neq in Hne. rewrite Hne. reflexivity.
Qed.

(** Without a supplied value the field is left alone. *)
Lemma reconcile_undefined (decimals : nat) (input : Input.t) :
  reconcile fo formatUnits viemParseUnits None decimals input = Some (input, []).
Proof. reflexivity. Qed.

(** C9. Zero displays as empty: a supplied value 0 gives the empty text at
    initialization, and also through the reconciliation whenever the text
    of the field parses to something other than 0. *)
Theorem zero_displays_empty (decimals : nat) (input : Input.t) (p : Z) :
  parseUnits viemParseUnits (unmask (Input.internalValue input) fo) decimals
    = Some p ->
  p <> 0 ->
  Input.internalValue (initialInput fo formatUnits (Some 0) decimals) = []
  /\ option_map (fun r => Input.internalValue (fst r))
       (reconcile fo formatUnits viemParseUnits (Some 0) decimals input) = Some [].
Proof.
  intros Hp Hne. split; [reflexivity|].
  unfold reconcile, bind. rewrite Hp.
  destruct (0 =? p) eqn:E; [apply Z.eqb_eq in E; congruence|].
  reflexivity.
Qed.

End Controller.

Lemma external_reconciliation_witness :
  reconcile PeriodDecimal Viem.formatUnits (Viem.parseUnits (fun _ => 0))
    (Some 12345) 1 {| Input.internalValue := js:"1,234.5"; Input.cursor := 3 |}
  = Some ({| Input.internalValue := js:"1,234.5"; Input.cursor := 3 |}, [])
  /\ reconcile PeriodDecimal Viem.formatUnits (Viem.parseUnits (fun _ => 0))
       (Some 70) 1 {| Input.internalValue := js:"1,234.5"; Input.cursor := 3 |}
     = Some ({| Input.internalValue := js:"7"; Input.cursor := 3 |},
             [ {| n_value := 70; n_rawValue := js:"7";
                  n_changedFromProps := true |} ]).
Proof.
  split.
  - apply (external_reconciliation PeriodDecimal Viem.formatUnits
             (Viem.parseUnits (fun _ => 0)) 12345 1
             {| Input.internalValue := js:"1,234.5"; Input.cursor := 3 |} 12345);
      reflexivity.
  - apply (external_reconciliation PeriodDecimal Viem.formatUnits
             (Viem.parseUnits (fun _ => 0)) 70 1
             {| Input.internalValue := js:"1,234.5"; Input.cursor := 3 |} 12345);
      [reflexivity | discriminate].
Defined.

Lemma zero_displays_empty_witness :
  Input.internalValue (initialInput PeriodDecimal Viem.formatUnits (Some 0) 1) = []
  /\ option_map (fun r => Input.internalValue (fst r))
       (reconcile PeriodDecimal Viem.formatUnits (Viem.parseUnits (fun _ => 0))
          (Some 0) 1
          {| Input.internalValue := js:"1,234.5"; Input.cursor := 3 |})
     = Some [].
Proof.
  apply (zero_displays_empty PeriodDecimal Viem.formatUnits
           (Viem.parseUnits (fun _ => 0)) 1
           {| Input.internalValue := js:"1,234.5"; Input.cursor := 3 |} 12345);
    [reflexivity | discriminate].
Defined.

(** ** Decimal text engine *)

Lemma str_eqb_eq (a b : str) : str_eqb a b = true <-> a = b.
Proof.
  revert b. induction a as [|x a IH]; intros [|y b]; simpl;
    try (split; [discriminate | discriminate]); [tauto|].
  rewrite andb_true_iff, Ascii.eqb_eq, IH.
  split; [intros [-> ->]; reflexivity | intros E; injection E; auto].
Qed.

Lemma separators_distinct (o : FormattingOptions) :
  decimalSeparator o <> thousandsSeparator o.
Proof. destruct o; discriminate. Qed.

Lemma decimalSeparator_not_digit (o : FormattingOptions) :
  isDigit (decimalSeparator o) = false.
Proof. destruct o; reflexivity. Qed.

Lemma thousandsSeparator_not_digit (o : FormattingOptions) :
  isDigit (thousandsSeparator o) = false.
Proof. destruct o; reflexivity. Qed.

Lemma digits_not_in (c : ascii) (s : str) :
  isDigit c = false -> forallb isDigit s = true -> ~ In c s.
Proof.
  intros Hc Hs Hin. rewrite forallb_forall in Hs.
  apply Hs in Hin. congruence.
Qed.

(** *** Splitting *)

Lemma split_not_nil (sep : ascii) (s : str) : split sep s <> [].
Proof.
  destruct s as [|c r]; simpl; [discriminate|].
  destruct (Ascii.eqb c sep); [discriminate|].
  destruct (split sep r); discriminate.
Qed.

Lemma split_no_separator (sep : ascii) (s : str) :
  ~ In sep s -> split sep s = [s].
Proof.
  induction s as [|c r IH]; intros Hnin; simpl; [reflexivity|].
  destruct (Ascii.eqb_spec c sep) as [->|Hne].
  - exfalso. apply Hnin. left. reflexivity.
  - rewrite IH; [reflexivity|]. intros Hin. apply Hnin. right. exact Hin.
Qed.

Lemma split_at_separator (sep : ascii) (a b : str) :
  ~ In sep a -> split sep (a ++ sep :: b) = a :: split sep b.
Proof.
  induction a as [|c r IH]; intros Hnin; simpl.
  - rewrite Ascii.eqb_refl. reflexivity.
  - destruct (Ascii.eqb_spec c sep) as [->|Hne].
    + exfalso. apply Hnin. left. reflexivity.
    + rewrite IH; [reflexivity|]. intros Hin. apply Hnin. right. exact Hin.
Qed.

(** The first piece stops at the first separator, if there is one. *)
Lemma split_first (sep : ascii) (s : str) :
  exists whole rest,
    split sep s = whole :: rest /\ ~ In sep whole /\
    ((rest = [] /\ s = whole) \/
     (exists t, s = whole ++ sep :: t /\ rest = split sep t)).
Proof.
  induction s as [|c r IH]; simpl.
  - exists [], []. split; [reflexivity|]. split; [intros []|]. left. auto.
  - destruct (Ascii.eqb_spec c sep) as [->|Hne].
    + exists [], (split sep r). split; [reflexivity|]. split; [intros []|].
      right. exists r. auto.
    + destruct IH as (w & rest & E & Hnin & Hcase). rewrite E.
      exists (c :: w), rest. split; [reflexivity|]. split.
      * intros [H|H]; [congruence | auto].
      * destruct Hcase as [[-> ->]|(t & -> & ->)]; [left; auto|].
        right. exists t. auto.
Qed.

Lemma concat_split (sep : ascii) (s : str) :
  concat (split sep s) = removeAll sep s.
Proof.
  induction s as [|c r IH]; simpl; [reflexivity|].
  destruct (Ascii.eqb_spec c sep) as [->|Hne]; simpl; [exact IH|].
  pose proof (split_not_nil sep r) as Hnn.
  destruct (split sep r) as [|p ps]; [congruence|].
  simpl in *. rewrite IH. reflexivity.
Qed.

Lemma length_split (sep : ascii) (s : str) :
  length (split sep s) = S (count_occ ascii_dec s sep).
Proof.
  induction s as [|c r IH]; simpl; [reflexivity|].
  destruct (Ascii.eqb_spec c sep) as [->|Hne].
  - destruct (ascii_dec sep sep); [|congruence]. simpl. rewrite IH. reflexivity.
  - destruct (ascii_dec c sep); [congruence|].
    pose proof (split_not_nil sep r) as Hnn.
    destruct (split sep r) as [|p ps]; [congruence|]. exact IH.
Qed.

(** *** Numeric strings *)

Lemma forallb_firstn (A : Type) (P : A -> bool) (n : nat) (l : list A) :
  forallb P l = true -> forallb P (firstn n l) = true.
Proof.
  revert n. induction l as [|x l IH]; intros [|n] H; simpl in *; auto.
  apply andb_true_iff in H. destruct H as [Hx Hl].
  rewrite Hx. simpl. auto.
Qed.

Lemma digits_of_filtered (sep : ascii) (s : str) :
  forallb (fun c => isDigit c || Ascii.eqb c sep) s = true ->
  ~ In sep s -> forallb isDigit s = true.
Proof.
  intros Hall Hnin. apply forallb_forall. intros c Hc.
  rewrite forallb_forall in Hall. specialize (Hall c Hc).
  apply orb_true_iff in Hall. destruct Hall as [H|H]; [exact H|].
  apply Ascii.eqb_eq in H. subst. contradiction.
Qed.

Lemma forallb_filter_same (A : Type) (P : A -> bool) (l : list A) :
  forallb P (filter P l) = true.
Proof.
  induction l as [|x l IH]; simpl; [reflexivity|].
  destruct (P x) eqn:E; simpl; [rewrite E|]; auto.
Qed.

Lemma removeAll_digits (sep : ascii) (s : str) :
  forallb (fun c => isDigit c || Ascii.eqb c sep) s = true ->
  isDigit sep = false ->
  forallb isDigit (removeAll sep s) = true.
Proof.
  intros Hall Hsep. induction s as [|c r IH]; simpl in *; [reflexivity|].
  apply andb_true_iff in Hall. destruct Hall as [Hc Hr].
  destruct (Ascii.eqb_spec c sep) as [->|Hne]; simpl; [auto|].
  rewrite IH by assumption.
  apply orb_true_iff in Hc. destruct Hc as [Hc|Hc].
  - rewrite Hc. reflexivity.
  - discriminate.
Qed.

(** Every result of [toNumericString] is a numeric string. *)
Lemma toNumericString_numeric (value : str) (decimals : nat)
    (o : FormattingOptions) :
  NumericString o decimals (toNumericString value decimals o).
Proof.
  unfold toNumericString. cbv zeta.
  destruct (str_eqb value [decimalSeparator o]);
    [apply numeric_whole; reflexivity|].
  match goal with
  | |- context [filter ?k ?x] => set (keep := k); set (v := x)
  end.
  pose proof (forallb_filter_same _ keep v) as Hkeep.
  destruct (split_first (decimalSeparator o) (filter keep v))
    as (w & rest & E & Hnin & Hcase).
  rewrite E.
  assert (Hsep : isDigit (decimalSeparator o) = false)
    by apply decimalSeparator_not_digit.
  destruct Hcase as [[-> Hw]|(t & Ht & ->)].
  - apply numeric_whole. rewrite Hw in Hkeep.
    eapply digits_of_filtered; eauto.
  - rewrite Ht in Hkeep. rewrite forallb_app in Hkeep.
    apply andb_true_iff in Hkeep. destruct Hkeep as [Hw Ht'].
    simpl in Ht'. apply andb_true_iff in Ht'. destruct Ht' as [_ Ht'].
    pose proof (split_not_nil (decimalSeparator o) t) as Hnn.
    destruct (split (decimalSeparator o) t) as [|p ps] eqn:Es; [congruence|].
    rewrite <- Es. unfold substring0, join_empty. rewrite concat_split.
    apply numeric_fraction.
    + eapply digits_of_filtered; eauto.
    + apply forallb_firstn. apply removeAll_digits; assumption.
    + apply firstn_le_length.
Qed.

(** *** Masking *)

Lemma removeAll_insertSeparators (sep : ascii) (prev : option ascii) (s : str) :
  removeAll sep (insertSeparators sep prev s) = removeAll sep s.
Proof.
  revert prev. induction s as [|c r IH]; intros prev; [reflexivity|].
  cbn [insertSeparators].
  destruct (nonBoundary prev (Some c) && groupsOfThree (c :: r)).
  - cbn [app]. unfold removeAll at 1. cbn [filter].
    rewrite Ascii.eqb_refl. cbn [negb].
    change (removeAll sep (c :: insertSeparators sep (Some c) r)
            = removeAll sep (c :: r)).
    unfold removeAll in *. cbn [filter]. rewrite IH. reflexivity.
  - cbn [app]. unfold removeAll in *. cbn [filter]. rewrite IH. reflexivity.
Qed.

Lemma removeAll_absent (sep : ascii) (s : str) :
  ~ In sep s -> removeAll sep s = s.
Proof.
  induction s as [|c r IH]; intros Hnin; simpl; [reflexivity|].
  destruct (Ascii.eqb_spec c sep) as [->|Hne].
  - exfalso. apply Hnin. left. reflexivity.
  - simpl. rewrite IH; [reflexivity|]. intros H. apply Hnin. right. exact H.
Qed.

Lemma removeAll_app (sep : ascii) (a b : str) :
  removeAll sep (a ++ b) = removeAll sep a ++ removeAll sep b.
Proof. apply filter_app. Qed.

(** The two shapes of a masked numeric string. *)
Lemma mask_whole (o : FormattingOptions) (w : str) :
  forallb isDigit w = true ->
  mask w o = insertSeparators (thousandsSeparator o) None w.
Proof.
  intros Hw. unfold mask. rewrite split_no_separator; [reflexivity|].
  apply digits_not_in; [apply decimalSeparator_not_digit | exact Hw].
Qed.

Lemma mask_fraction (o : FormattingOptions) (w f : str) :
  forallb isDigit w = true -> forallb isDigit f = true ->
  mask (w ++ decimalSeparator o :: f) o
  = insertSeparators (thousandsSeparator o) None w ++ decimalSeparator o :: f.
Proof.
  intros Hw Hf. unfold mask.
  rewrite split_at_separator
    by (apply digits_not_in; [apply decimalSeparator_not_digit | exact Hw]).
  rewrite split_no_separator
    by (apply digits_not_in; [apply decimalSeparator_not_digit | exact Hf]).
  reflexivity.
Qed.

Lemma unmask_mask_numeric (o : FormattingOptions) (scale : nat) (n : str) :
  NumericString o scale n -> unmask (mask n o) o = n.
Proof.
  intros [w Hw|w f Hw Hf _]; unfold unmask.
  - rewrite mask_whole by assumption.
    rewrite removeAll_insertSeparators. apply removeAll_absent.
    apply digits_not_in; [apply thousandsSeparator_not_digit | exact Hw].
  - rewrite mask_fraction by assumption.
    rewrite removeAll_app, removeAll_insertSeparators.
    rewrite <- removeAll_app. apply removeAll_absent.
    intros Hin. apply in_app_or in Hin. destruct Hin as [Hin|[Hin|Hin]].
    + revert Hin. apply digits_not_in;
        [apply thousandsSeparator_not_digit | exact Hw].
    + exact (separators_distinct o Hin).
    + revert Hin. apply digits_not_in;
        [apply thousandsSeparator_not_digit | exact Hf].
Qed.

(** C5. Mask/unmask inverse: on every text that [toNumericString] can
    return, whatever the raw text, the scale and the formatting options,
    unmasking the masked text gives the text back. *)
Theorem unmask_mask_inverse (o : FormattingOptions) (raw : str) (scale : nat) :
  unmask (mask (toNumericString raw scale o) o) o = toNumericString raw scale o.
Proof.
  apply unmask_mask_numeric with (scale := scale).
  apply toNumericString_numeric.
Qed.

(** *** Normalization *)

Lemma endsWith_in (c : ascii) (s : str) : endsWith c s = true -> In c s.
Proof.
  unfold endsWith. intros H. apply in_rev.
  destruct (rev s) as [|x r]; [discriminate|].
  apply Ascii.eqb_eq in H. subst. left. reflexivity.
Qed.

Lemma numeric_chars (o : FormattingOptions) (scale : nat) (n : str) :
  NumericString o scale n ->
  forallb (fun c => isDigit c || Ascii.eqb c (decimalSeparator o)) n = true.
Proof.
  assert (Hd : forall s, forallb isDigit s = true ->
    forallb (fun c => isDigit c || Ascii.eqb c (decimalSeparator o)) s = true).
  { intros s Hs. apply forallb_forall. intros c Hc.
    rewrite forallb_forall in Hs. rewrite (Hs c Hc). reflexivity. }
  intros [w Hw|w f Hw Hf _]; [auto|].
  rewrite forallb_app. simpl. rewrite Ascii.eqb_refl, orb_true_r.
  rewrite !Hd by assumption. reflexivity.
Qed.

Lemma numeric_no_thousands (o : FormattingOptions) (scale : nat) (n : str) :
  NumericString o scale n -> ~ In (thousandsSeparator o) n.
Proof.
  intros Hn Hin. apply numeric_chars in Hn.
  rewrite forallb_forall in Hn. specialize (Hn _ Hin).
  rewrite thousandsSeparator_not_digit in Hn. simpl in Hn.
  apply Ascii.eqb_eq in Hn. symmetry in Hn.
  exact (separators_distinct o Hn).
Qed.

(** A numeric string other than the bare decimal separator is a fixed point
    of the normalization. *)
Lemma toNumericString_fixed (o : FormattingOptions) (scale : nat) (n : str) :
  NumericString o scale n -> n <> [decimalSeparator o] ->
  toNumericString n scale o = n.
Proof.
  intros Hn Hne. unfold toNumericString. cbv zeta.
  destruct (str_eqb n [decimalSeparator o]) eqn:E;
    [apply str_eqb_eq in E; contradiction|].
  destruct (endsWith (thousandsSeparator o) n) eqn:Ee;
    [apply endsWith_in in Ee; apply numeric_no_thousands in Hn; contradiction|].
  rewrite forallb_filter_id by (eapply numeric_chars; eauto).
  assert (Hsep : isDigit (decimalSeparator o) = false)
    by apply decimalSeparator_not_digit.
  destruct Hn as [w Hw|w f Hw Hf Hlen].
  - rewrite split_no_separator by (apply digits_not_in; assumption).
    reflexivity.
  - rewrite split_at_separator by (apply digits_not_in; assumption).
    rewrite split_no_separator by (apply digits_not_in; assumption).
    unfold substring0, join_empty. simpl. rewrite app_nil_r.
    rewrite firstn_all2 by exact Hlen. reflexivity.
Qed.

(** The bare decimal separator is sent to the empty text, which is a fixed
    point. *)
Lemma toNumericString_separator (o : FormattingOptions) (scale : nat) :
  toNumericString [decimalSeparator o] scale o = []
  /\ toNumericString [] scale o = [].
Proof. destruct o; split; reflexivity. Qed.

(** C4, as the code has it. Idempotence of normalization whenever the
    normalized text is not the bare decimal separator: then normalizing it
    again under the same scale and options gives it back. *)
Theorem toNumericString_idempotent
    (o : FormattingOptions) (raw : str) (scale : nat) :
  toNumericString raw scale o <> [decimalSeparator o] ->
  toNumericString (toNumericString raw scale o) scale o
  = toNumericString raw scale o.
Proof.
  intros Hne. apply toNumericString_fixed; [|exact Hne].
  apply toNumericString_numeric.
Qed.

Lemma toNumericString_idempotent_witness :
  toNumericString (toNumericString js:"1a2.3.45x" 2 PeriodDecimal) 2 PeriodDecimal
  = toNumericString js:"1a2.3.45x" 2 PeriodDecimal.
Proof.
  apply (toNumericString_idempotent PeriodDecimal js:"1a2.3.45x" 2).
  vm_compute. discriminate.
Defined.

(** C4, as claimed, fails on the bare thousands separator: the raw text ","
    is normalized to ".", and "." is normalized to the empty text. *)
Lemma toNumericString_not_idempotent :
  toNumericString (toNumericString js:"," 2 PeriodDecimal) 2 PeriodDecimal
  <> toNumericString js:"," 2 PeriodDecimal.
Proof. vm_compute. discriminate. Qed.

Example toNumericString_thousands_separator :
  toNumericString js:"," 2 PeriodDecimal = js:"."
  /\ toNumericString js:"." 2 PeriodDecimal = js:""
  /\ toNumericString js:".5" 0 PeriodDecimal = js:"."
  /\ toNumericString js:"a." 2 PeriodDecimal = js:".".
Proof. repeat split. Qed.

(** ** Deleting a thousands separator *)

Lemma relIndex_inside (A : Type) (s : list A) (n : nat) :
  (n <= length s)%nat -> relIndex s (Z.of_nat n) = n.
Proof.
  intros Hn. unfold relIndex, len.
  destruct (Z.of_nat n <? 0) eqn:E; [apply Z.ltb_lt in E; lia | lia].
Qed.

Lemma slice_prefix (A : Type) (s : list A) (n : nat) :
  (n <= length s)%nat -> slice s 0 (Z.of_nat n) = firstn n s.
Proof.
  intros Hn. unfold slice.
  rewrite (relIndex_inside A s n Hn).
  change (relIndex s 0) with (relIndex s (Z.of_nat 0)).
  rewrite (relIndex_inside A s 0) by lia.
  rewrite Nat.sub_0_r. reflexivity.
Qed.

Lemma sliceFrom_suffix (A : Type) (s : list A) (n : nat) :
  (n <= length s)%nat -> sliceFrom s (Z.of_nat n) = skipn n s.
Proof.
  intros Hn. unfold sliceFrom. rewrite relIndex_inside by exact Hn.
  reflexivity.
Qed.

(** Inside the text, [removeCharAt] drops the character just before offset
    [i], the one at zero-based index [i - 1]. *)
Lemma removeCharAt_inside (value : str) (i : nat) :
  (1 <= i <= length value)%nat ->
  removeCharAt value (Z.of_nat i) = firstn (i - 1) value ++ skipn i value.
Proof.
  intros Hi. unfold removeCharAt.
  replace (Z.of_nat i - 1) with (Z.of_nat (i - 1)) by lia.
  rewrite slice_prefix by lia. rewrite sliceFrom_suffix by lia. reflexivity.
Qed.

Lemma length_removeAll (c : ascii) (s : str) :
  (length (removeAll c s) + count_occ ascii_dec s c = length s)%nat.
Proof.
  induction s as [|x r IH]; simpl; [reflexivity|].
  destruct (Ascii.eqb_spec x c) as [->|Hne]; simpl.
  - destruct (ascii_dec c c); [lia | congruence].
  - destruct (ascii_dec x c); [congruence | lia].
Qed.

(** The replacement never inserts a separator in front of the text. *)
Lemma insertSeparators_head (sep : ascii) (c : ascii) (r : str) :
  insertSeparators sep None (c :: r) = c :: insertSeparators sep (Some c) r.
Proof.
  cbn [insertSeparators].
  destruct (groupsOfThree (c :: r)) eqn:G; [|rewrite andb_false_r; reflexivity].
  assert (Hc : isDigit c = true).
  { destruct r as [|d2 [|d3 r']]; simpl in G; try discriminate.
    destruct (isDigit c); [reflexivity | discriminate]. }
  unfold nonBoundary, isWord. rewrite Hc. reflexivity.
Qed.

Lemma mask_head (o : FormattingOptions) (scale : nat) (n : str) (c : ascii)
    (rest : str) :
  NumericString o scale n -> mask n o = c :: rest -> c <> thousandsSeparator o.
Proof.
  intros Hn E Hc. subst c.
  pose proof (thousandsSeparator_not_digit o) as Ht.
  destruct Hn as [w Hw|w f Hw Hf _].
  - rewrite mask_whole in E by assumption.
    destruct w as [|c r]; [discriminate|].
    rewrite insertSeparators_head in E. injection E as -> _.
    simpl in Hw. rewrite Ht in Hw. discriminate.
  - rewrite mask_fraction in E by assumption.
    destruct w as [|c r].
    + simpl in E. injection E as E _. exact (separators_distinct o E).
    + rewrite insertSeparators_head in E. injection E as -> _.
      simpl in Hw. rewrite Ht in Hw. discriminate.
Qed.

Lemma count_occ_le_length (c : ascii) (s : str) :
  (count_occ ascii_dec s c <= length s)%nat.
Proof. pose proof (length_removeAll c s). lia. Qed.

(** Where the caret stands on a thousands separator of a masked numeric
    string, at least one character other than a separator lies before it,
    and the characters before it that are not separators are a prefix of
    the unmasked text. *)
Lemma caret_on_separator (o : FormattingOptions) (scale : nat) (n : str)
    (caret : nat) :
  NumericString o scale n ->
  charAt (mask n o) (Z.of_nat caret) = Some (thousandsSeparator o) ->
  let k := count_occ ascii_dec (firstn caret (mask n o)) (thousandsSeparator o) in
  (caret < length (mask n o))%nat
  /\ (1 <= caret - k <= length n)%nat /\ (k < caret)%nat.
Proof.
  intros Hn Hc k. unfold charAt in Hc.
  destruct (Z.of_nat caret <? 0) eqn:E; [discriminate|].
  rewrite Nat2Z.id in Hc.
  assert (Hlt : (caret < length (mask n o))%nat)
    by (apply nth_error_Some; congruence).
  split; [exact Hlt|].
  assert (Hk : (k < caret)%nat).
  { subst k. destruct (mask n o) as [|c rest] eqn:Em; [simpl in Hlt; lia|].
    pose proof (mask_head _ _ _ _ _ Hn Em) as Hhead.
    destruct caret as [|caret'].
    - simpl in Hc. congruence.
    - cbn [firstn count_occ]. destruct (ascii_dec c (thousandsSeparator o));
        [contradiction|].
      pose proof (count_occ_le_length (thousandsSeparator o) (firstn caret' rest)).
      rewrite length_firstn in H. lia. }
  split; [|exact Hk].
  split; [lia|].
  pose proof (unmask_mask_numeric o scale n Hn) as Hu. unfold unmask in Hu.
  rewrite <- (firstn_skipn caret (mask n o)) in Hu.
  rewrite removeAll_app in Hu.
  assert (Hlen : (length (removeAll (thousandsSeparator o) (firstn caret (mask n o)))
                  <= length n)%nat).
  { rewrite <- Hu at 2. rewrite length_app. lia. }
  pose proof (length_removeAll (thousandsSeparator o) (firstn caret (mask n o))) as Hl.
  rewrite length_firstn in Hl. fold k in Hl. lia.
Qed.

(** Two inserted separators are never next to each other. *)
Lemma insertSeparators_not_adjacent (sep : ascii) (prev : option ascii)
    (s : str) (i : nat) :
  ~ In sep s ->
  nth_error (insertSeparators sep prev s) (S i) = Some sep ->
  nth_error (insertSeparators sep prev s) i <> Some sep.
Proof.
  revert prev i. induction s as [|c r IH]; intros prev i Hnin Hi.
  - destruct i; discriminate.
  - assert (Hc : c <> sep) by (intros ->; apply Hnin; left; reflexivity).
    assert (Hr : ~ In sep r) by (intros H; apply Hnin; right; exact H).
    cbn [insertSeparators] in *.
    destruct (nonBoundary prev (Some c) && groupsOfThree (c :: r));
      cbn [app] in *.
    + destruct i as [|[|j]]; cbn [nth_error] in *.
      * congruence.
      * congruence.
      * apply IH with (prev := Some c); assumption.
    + destruct i as [|j]; cbn [nth_error] in *.
      * congruence.
      * apply IH with (prev := Some c); assumption.
Qed.

Lemma mask_not_adjacent (o : FormattingOptions) (scale : nat) (n : str)
    (i : nat) :
  NumericString o scale n ->
  nth_error (mask n o) (S i) = Some (thousandsSeparator o) ->
  nth_error (mask n o) i <> Some (thousandsSeparator o).
Proof.
  pose proof (thousandsSeparator_not_digit o) as Ht.
  intros [w Hw|w f Hw Hf _] Hi.
  - rewrite mask_whole in * by assumption.
    apply insertSeparators_not_adjacent; [|exact Hi].
    apply digits_not_in; assumption.
  - rewrite mask_fraction in * by assumption.
    set (m := insertSeparators (thousandsSeparator o) None w) in *.
    destruct (Nat.lt_ge_cases (S i) (length m)) as [Hlt|Hge].
    + rewrite nth_error_app1 in * by lia.
      apply insertSeparators_not_adjacent; [|exact Hi].
      apply digits_not_in; assumption.
    + rewrite nth_error_app2 in Hi by lia.
      apply nth_error_In in Hi. exfalso.
      destruct Hi as [Hi|Hi]; [exact (separators_distinct o Hi)|].
      revert Hi. apply digits_not_in; assumption.
Qed.

Lemma firstn_succ_nth (A : Type) (l : list A) (i : nat) (x : A) :
  nth_error l i = Some x -> firstn (S i) l = firstn i l ++ [x].
Proof.
  revert i. induction l as [|y l IH]; intros [|i] H; simpl in *;
    try discriminate.
  - congruence.
  - rewrite (IH i H). reflexivity.
Qed.

(** The character that the deletion drops from the unmasked text is the
    one shown just before the separator under the caret. *)
Lemma digit_before_separator (o : FormattingOptions) (scale : nat) (n : str)
    (caret : nat) :
  NumericString o scale n ->
  charAt (mask n o) (Z.of_nat caret) = Some (thousandsSeparator o) ->
  let k := count_occ ascii_dec (firstn caret (mask n o)) (thousandsSeparator o) in
  nth_error n (caret - k - 1) = nth_error (mask n o) (caret - 1)
  /\ nth_error (mask n o) (caret - 1) <> None.
Proof.
  intros Hn Hc k.
  destruct (caret_on_separator o scale n caret Hn Hc) as (Hlt & Hrange & Hk).
  fold k in Hrange, Hk.
  unfold charAt in Hc.
  destruct (Z.of_nat caret <? 0) eqn:E; [discriminate|].
  rewrite Nat2Z.id in Hc.
  destruct caret as [|i]; [lia|].
  replace (S i - 1)%nat with i by lia.
  pose proof (mask_not_adjacent o scale n i Hn Hc) as Hadj.
  destruct (nth_error (mask n o) i) as [x|] eqn:Ex;
    [|apply nth_error_None in Ex; lia].
  split; [|discriminate].
  assert (Hx : x <> thousandsSeparator o) by congruence.
  pose proof (unmask_mask_numeric o scale n Hn) as Hu. unfold unmask in Hu.
  rewrite <- (firstn_skipn (S i) (mask n o)) in Hu.
  rewrite removeAll_app in Hu.
  pose proof (length_removeAll (thousandsSeparator o) (firstn (S i) (mask n o)))
    as Hl.
  rewrite length_firstn in Hl. fold k in Hl.
  rewrite (firstn_succ_nth _ _ _ _ Ex) in Hu.
  rewrite removeAll_app in Hu.
  assert (Hone : removeAll (thousandsSeparator o) [x] = [x]).
  { unfold removeAll. cbn [filter].
    destruct (Ascii.eqb_spec x (thousandsSeparator o)); [contradiction|].
    reflexivity. }
  rewrite Hone in Hu.
  rewrite (firstn_succ_nth _ _ _ _ Ex), removeAll_app, Hone in Hl.
  rewrite length_app in Hl. cbn [length] in Hl.
  rewrite <- Hu. rewrite <- app_assoc.
  rewrite nth_error_app2 by lia.
  replace (S i - k - 1 - length (removeAll (thousandsSeparator o)
                                   (firstn i (mask n o))))%nat
    with 0%nat by lia.
  reflexivity.
Qed.

(** C2, as the code has it. Separator-delete special case: on a backward
    deletion with the caret on a thousands separator of the masked text,
    and [k] the number of thousands separators before the caret, the
    character dropped from the unmasked text is the one just before offset
    [caret - k], at zero-based index [caret - k - 1]: an index inside the
    text, holding the character shown just before the separator. The result
    is re-masked and the new caret is [caret - 1], or [caret - 2] when the
    re-masked text is shorter than the masked text by more than one
    character, and never below 0. *)
Theorem separator_delete
    (fo : FormattingOptions) (raw : str) (decimals caret : nat) :
  let numeric := toNumericString raw decimals fo in
  let masked := mask numeric fo in
  charAt masked (Z.of_nat caret) = Some (thousandsSeparator fo) ->
  let k := count_occ ascii_dec (firstn caret masked) (thousandsSeparator fo) in
  let newNumeric := firstn (caret - k - 1) numeric ++ skipn (caret - k) numeric in
  let newMasked := mask newNumeric fo in
  (1 <= caret - k <= length numeric)%nat
  /\ nth_error numeric (caret - k - 1) = nth_error masked (caret - 1)
  /\ handleMaskedInput fo (backwardDeletion raw caret) decimals fo
     = {| numericValue := newNumeric;
          maskedValue := newMasked;
          cursor :=
            Z.max 0 (if len masked - len newMasked >? 1
                     then Z.of_nat caret - 2 else Z.of_nat caret - 1) |}.
Proof.
  intros numeric masked Hc k newNumeric newMasked.
  pose proof (toNumericString_numeric raw decimals fo) as Hn.
  destruct (caret_on_separator fo decimals numeric caret Hn Hc)
    as (Hlt & Hrange & Hk).
  destruct (digit_before_separator fo decimals numeric caret Hn Hc)
    as (Hdigit & _).
  fold masked in Hlt, Hrange, Hk, Hdigit. fold k in Hrange, Hk, Hdigit.
  split; [exact Hrange|]. split; [exact Hdigit|].
  unfold handleMaskedInput, backwardDeletion.
  cbn [target_value target_selectionStart nativeEvent_inputType].
  fold numeric. fold masked. rewrite Hc, Ascii.eqb_refl.
  change (String.eqb "deleteContentBackward" "deleteContentBackward") with true.
  cbn [andb].
  rewrite slice_prefix by lia. rewrite length_split. fold k.
  replace (Z.of_nat caret - (Z.of_nat (S k) - 1)) with (Z.of_nat (caret - k))
    by lia.
  rewrite removeCharAt_inside by exact Hrange.
  fold newNumeric. fold newMasked.
  f_equal.
  destruct (len masked - len newMasked >? 1);
    match goal with
    | |- (if ?c >? 0 then _ else _) = _ =>
        destruct (c >? 0) eqn:E; rewrite Z.gtb_ltb in E;
        [apply Z.ltb_lt in E | apply Z.ltb_ge in E]; lia
    end.
Qed.

Lemma separator_delete_witness :
  (1 <= 7 <= 10)%nat
  /\ nth_error js:"1000000000" 6 = nth_error js:"1,000,000,000" 8
  /\ handleMaskedInput PeriodDecimal (backwardDeletion js:"1,000,000000" 9) 18
       PeriodDecimal
     = {| numericValue := js:"100000000";
          maskedValue := js:"100,000,000";
          cursor := 7 |}.
Proof.
  apply (separator_delete PeriodDecimal js:"1,000,000000" 18 9). reflexivity.
Defined.

(** C2, as claimed, fails on the raw text "1234" with the caret at 1: the
    masked text is "1,234", the caret is on the comma, no separator comes
    before it, and the code drops the character before offset 1 and gives
    "234", where dropping the character at index 1 gives "134". *)
Lemma separator_delete_not_at_index :
  charAt (mask (toNumericString js:"1234" 0 PeriodDecimal) PeriodDecimal) 1
  = Some (thousandsSeparator PeriodDecimal)
  /\ count_occ ascii_dec
       (firstn 1 (mask (toNumericString js:"1234" 0 PeriodDecimal) PeriodDecimal))
       (thousandsSeparator PeriodDecimal) = 0%nat
  /\ numericValue (handleMaskedInput PeriodDecimal (backwardDeletion js:"1234" 1)
                     0 PeriodDecimal)
     = js:"234"
  /\ numericValue (handleMaskedInput PeriodDecimal (backwardDeletion js:"1234" 1)
                     0 PeriodDecimal)
     <> firstn 1 (toNumericString js:"1234" 0 PeriodDecimal)
        ++ skipn 2 (toNumericString js:"1234" 0 PeriodDecimal).
Proof. repeat split. vm_compute. discriminate. Qed.

(** ** Scaled values and their text *)

Lemma digitChar_digit (d : Z) :
  0 <= d <= 9 -> isDigit (digitChar d) = true /\ digitValue (digitChar d) = d.
Proof.
  intros Hd.
  assert (H : d = 0 \/ d = 1 \/ d = 2 \/ d = 3 \/ d = 4 \/ d = 5 \/ d = 6
              \/ d = 7 \/ d = 8 \/ d = 9) by lia.
  repeat (destruct H as [->|H]; [split; reflexivity|]).
  subst. split; reflexivity.
Qed.

Lemma digitsValue_acc (s : str) (acc : Z) :
  fold_left (fun a c => 10 * a + digitValue c) s acc
  = acc * 10 ^ len s + digitsValue s.
Proof.
  unfold digitsValue. revert acc.
  induction s as [|c r IH]; intros acc; cbn [fold_left].
  - unfold len. simpl. lia.
  - rewrite IH. rewrite (IH (10 * 0 + digitValue c)).
    unfold len. cbn [length]. rewrite Nat2Z.inj_succ, Z.pow_succ_r by lia.
    lia.
Qed.

Lemma digitsValue_app (a b : str) :
  digitsValue (a ++ b) = digitsValue a * 10 ^ len b + digitsValue b.
Proof.
  unfold digitsValue at 1. rewrite fold_left_app.
  apply digitsValue_acc.
Qed.

Lemma digitsValue_zeros (n : nat) (s : str) :
  digitsValue (repeat "0"%char n ++ s) = digitsValue s.
Proof.
  rewrite digitsValue_app.
  assert (H : digitsValue (repeat "0"%char n) = 0).
  { induction n as [|n IH]; [reflexivity|].
    change (repeat "0"%char (S n)) with (["0"%char] ++ repeat "0"%char n).
    rewrite digitsValue_app, IH. reflexivity. }
  rewrite H. lia.
Qed.

Lemma digitsValue_one (c : ascii) : digitsValue [c] = digitValue c.
Proof. unfold digitsValue. cbn [fold_left]. lia. Qed.

Lemma one_digit (d : Z) (acc : str) :
  0 <= d <= 9 ->
  exists D,
    digitChar d :: acc = D ++ acc /\ D <> [] /\
    forallb isDigit D = true /\ digitsValue D = d.
Proof.
  intros Hd. destruct (digitChar_digit d Hd) as [Hdig Hv].
  exists [digitChar d]. split; [reflexivity|]. split; [discriminate|].
  split; [cbn [forallb]; rewrite Hdig; reflexivity|].
  rewrite digitsValue_one. exact Hv.
Qed.

(** With enough fuel the digits of [n] are produced in full. *)
Lemma digitsOf_spec (f : nat) (n : Z) (acc : str) :
  0 <= n < 2 ^ Z.of_nat (S f) ->
  exists D,
    digitsOf (S f) n acc = D ++ acc /\ D <> [] /\
    forallb isDigit D = true /\ digitsValue D = n.
Proof.
  revert n acc. induction f as [|f IH]; intros n acc Hn.
  - assert (Hn' : 0 <= n <= 9) by (change (2 ^ Z.of_nat 1) with 2 in Hn; lia).
    cbn [digitsOf]. rewrite Z.mod_small by lia.
    replace (n / 10) with 0 by (symmetry; apply Z.div_small; lia).
    rewrite Z.eqb_refl. apply one_digit. exact Hn'.
  - assert (Hm : 0 <= n mod 10 <= 9) by (pose proof (Z.mod_pos_bound n 10); lia).
    destruct (digitChar_digit (n mod 10) Hm) as [Hd Hv].
    assert (Hdm : n = 10 * (n / 10) + n mod 10) by (apply Z.div_mod; lia).
    remember (S f) as f' eqn:Ef.
    cbn [digitsOf]. destruct (n / 10 =? 0) eqn:E.
    + apply Z.eqb_eq in E.
      destruct (one_digit (n mod 10) acc Hm) as (D & HD & Hne & Hdig & Hval).
      exists D. repeat split; try assumption. lia.
    + apply Z.eqb_neq in E.
      assert (Hq : 0 <= n / 10 < 2 ^ Z.of_nat f').
      { split; [apply Z.div_pos; lia|].
        rewrite (Nat2Z.inj_succ f'), Z.pow_succ_r in Hn by lia.
        apply Z.div_lt_upper_bound; lia. }
      subst f'.
      destruct (IH (n / 10) (digitChar (n mod 10) :: acc) Hq)
        as (D & HD & Hne & Hdig & Hval).
      exists (D ++ [digitChar (n mod 10)]).
      rewrite <- app_assoc. split; [exact HD|].
      split; [intros H; apply app_eq_nil in H; destruct H; discriminate|].
      split.
      * rewrite forallb_app, Hdig. cbn [forallb]. rewrite Hd. reflexivity.
      * rewrite digitsValue_app, Hval, digitsValue_one, Hv.
        change (len [digitChar (n mod 10)]) with 1. lia.
Qed.

(** The text of a non-negative bigint: digits, at least one, and they
    spell the value. *)
Lemma BigInt_toString_nonneg (v : Z) :
  0 <= v ->
  BigInt_toString v <> [] /\ forallb isDigit (BigInt_toString v) = true
  /\ digitsValue (BigInt_toString v) = v.
Proof.
  intros Hv. unfold BigInt_toString.
  destruct (v <? 0) eqn:E; [apply Z.ltb_lt in E; lia|].
  assert (Hb : 0 <= v < 2 ^ Z.of_nat (S (Z.to_nat (Z.log2 v)))).
  { split; [exact Hv|]. rewrite Nat2Z.inj_succ, Z2Nat.id by apply Z.log2_nonneg.
    destruct (Z.eq_dec v 0) as [->|Hpos]; [reflexivity|].
    apply Z.log2_spec. lia. }
  destruct (digitsOf_spec _ v [] Hb) as (D & HD & Hne & Hdig & Hval).
  rewrite HD, app_nil_r. auto.
Qed.

Lemma startsWith_digits (c : ascii) (s : str) :
  isDigit c = false -> forallb isDigit s = true -> startsWith c s = false.
Proof.
  intros Hc Hs. destruct s as [|x r]; [reflexivity|]. simpl in *.
  apply andb_true_iff in Hs. destruct Hs as [Hx _].
  destruct (Ascii.eqb_spec x c); [congruence | reflexivity].
Qed.

Lemma BigInt_digits (s : str) :
  forallb isDigit s = true -> BigInt s = Some (digitsValue s).
Proof.
  intros Hs. unfold BigInt.
  rewrite startsWith_digits by (reflexivity || assumption).
  rewrite Hs. reflexivity.
Qed.

(** *** Trailing zeros *)

Lemma stripTrailingZeros_spec (s : str) :
  exists m, s = stripTrailingZeros s ++ repeat "0"%char m.
Proof.
  induction s as [|c r [m IH]]; [exists 0%nat; reflexivity|].
  cbn [stripTrailingZeros].
  destruct (stripTrailingZeros r) as [|x r'] eqn:E.
  - destruct (Ascii.eqb_spec c "0") as [->|Hne].
    + exists (S m). simpl in *. congruence.
    + exists m. simpl in *. congruence.
  - exists m. rewrite IH at 1. reflexivity.
Qed.

Lemma stripTrailingZeros_idempotent (s : str) :
  stripTrailingZeros (stripTrailingZeros s) = stripTrailingZeros s.
Proof.
  induction s as [|c r IH]; [reflexivity|].
  cbn [stripTrailingZeros].
  destruct (stripTrailingZeros r) as [|x r'] eqn:E.
  - destruct (Ascii.eqb c "0") eqn:Ec; [reflexivity|].
    cbn [stripTrailingZeros]. rewrite Ec. reflexivity.
  - cbn [stripTrailingZeros] in *. rewrite IH. reflexivity.
Qed.

Lemma stripTrailingZeros_digits (s : str) :
  forallb isDigit s = true -> forallb isDigit (stripTrailingZeros s) = true.
Proof.
  intros Hs. destruct (stripTrailingZeros_spec s) as [m E].
  rewrite E, forallb_app in Hs. apply andb_true_iff in Hs. tauto.
Qed.

(** *** Formatting and parsing *)

Lemma padStart0_spec (s : str) (n : nat) :
  forallb isDigit s = true ->
  forallb isDigit (padStart0 s n) = true
  /\ (n <= length (padStart0 s n))%nat
  /\ digitsValue (padStart0 s n) = digitsValue s.
Proof.
  intros Hs. unfold padStart0. split; [|split].
  - rewrite forallb_app, Hs, andb_true_r.
    apply forallb_forall. intros c Hc. apply repeat_spec in Hc. subst.
    reflexivity.
  - rewrite length_app, repeat_length. lia.
  - apply digitsValue_zeros.
Qed.

(** The shape of [formatUnits] on a non-negative value: a non-empty
    integer part [I], and the fraction [F0] of exactly [decimals] digits
    with its trailing zeros dropped. *)
Lemma formatUnits_nonneg (v : Z) (decimals : nat) :
  0 <= v ->
  exists I F0,
    Viem.formatUnits v decimals = I ++ fractionSuffix (stripTrailingZeros F0)
    /\ I <> [] /\ forallb isDigit I = true
    /\ forallb isDigit F0 = true /\ length F0 = decimals
    /\ digitsValue (I ++ F0) = v.
Proof.
  intros Hv. destruct (BigInt_toString_nonneg v Hv) as (Hne & Hdig & Hval).
  unfold Viem.formatUnits. cbv zeta.
  rewrite (startsWith_digits "-" _ eq_refl Hdig).
  destruct (padStart0_spec (BigInt_toString v) decimals Hdig)
    as (Hpd & Hpl & Hpv).
  set (P := padStart0 (BigInt_toString v) decimals) in *.
  replace (len P - Z.of_nat decimals) with (Z.of_nat (length P - decimals))
    by (unfold len; lia).
  rewrite slice_prefix by lia. rewrite sliceFrom_suffix by lia.
  set (k := (length P - decimals)%nat).
  assert (HP : firstn k P ++ skipn k P = P) by apply firstn_skipn.
  assert (Hfd : forallb isDigit (firstn k P) = true
                /\ forallb isDigit (skipn k P) = true).
  { rewrite <- HP, forallb_app in Hpd. apply andb_true_iff in Hpd. exact Hpd. }
  destruct Hfd as [Hfd Hsd].
  assert (Hsl : length (skipn k P) = decimals)
    by (rewrite length_skipn; subst k; lia).
  exists (match firstn k P with [] => ["0"%char] | _ => firstn k P end),
         (skipn k P).
  split; [reflexivity|].
  destruct (firstn k P) as [|c r] eqn:Ef.
  - repeat split; try assumption; try discriminate.
    change (["0"%char] ++ skipn k P) with (repeat "0"%char 1 ++ skipn k P).
    rewrite digitsValue_zeros. simpl in HP. rewrite HP. congruence.
  - repeat split; try assumption; try discriminate.
    rewrite HP. congruence.
Qed.

Lemma dropDigits_app (a b : str) :
  forallb isDigit a = true -> dropDigits (a ++ b) = dropDigits b.
Proof.
  induction a as [|c r IH]; intros Ha; [reflexivity|].
  simpl in *. apply andb_true_iff in Ha. destruct Ha as [Hc Hr].
  rewrite Hc. auto.
Qed.

Lemma replaceFirst_absent (c d : ascii) (s : str) :
  ~ In c s -> replaceFirst c d s = s.
Proof.
  induction s as [|x r IH]; intros Hnin; simpl; [reflexivity|].
  destruct (Ascii.eqb_spec x c) as [->|Hne].
  - exfalso. apply Hnin. left. reflexivity.
  - rewrite IH; [reflexivity|]. intros H. apply Hnin. right. exact H.
Qed.

Lemma startsWith_app (c : ascii) (a b : str) :
  a <> [] -> startsWith c (a ++ b) = startsWith c a.
Proof. destruct a; [congruence | reflexivity]. Qed.

Section Parsing.

Variable roundLiteral : str -> Z.

(** Parsing an integer part followed by a fraction without trailing zeros
    and within the scale shifts the point: the value is spelled by the
    integer part and the fraction padded back to [decimals] digits. *)
Lemma viemParseUnits_digits (I F0 : str) (decimals : nat) :
  I <> [] -> forallb isDigit I = true ->
  forallb isDigit F0 = true -> length F0 = decimals ->
  Viem.parseUnits roundLiteral (I ++ fractionSuffix (stripTrailingZeros F0))
    decimals
  = Some (digitsValue (I ++ F0)).
Proof.
  intros HIne HI HF0 Hlen.
  assert (HF : forallb isDigit (stripTrailingZeros F0) = true)
    by (apply stripTrailingZeros_digits; auto).
  destruct (stripTrailingZeros_spec F0) as [m Hm].
  pose proof (stripTrailingZeros_idempotent F0) as Hid.
  remember (stripTrailingZeros F0) as F eqn:EF. clear EF.
  assert (HsI : startsWith "-" I = false) by (apply startsWith_digits; auto).
  assert (Hdot : ~ In "."%char I) by (apply digits_not_in; auto).
  assert (HdotF : ~ In "."%char F) by (apply digits_not_in; auto).
  (* the pieces read from the text *)
  assert (Hvalid : isDecimalNumber (I ++ fractionSuffix F) = true).
  { unfold isDecimalNumber. rewrite startsWith_app, HsI by assumption.
    rewrite dropDigits_app by assumption.
    unfold fractionSuffix. destruct F as [|c r]; [reflexivity|].
    cbn [dropDigits]. change (isDigit ".") with false. cbv iota.
    change (startsWith "." ("."%char :: c :: r)) with true. cbv iota.
    exact HF. }
  assert (Hparts :
    split "." (I ++ fractionSuffix F)
    = match F with [] => [I] | _ => [I; F] end).
  { unfold fractionSuffix. destruct F as [|c r] eqn:EF.
    - rewrite app_nil_r. apply split_no_separator. exact Hdot.
    - rewrite split_at_separator by exact Hdot.
      rewrite split_no_separator by exact HdotF. reflexivity. }
  assert (Hint :
    match (match F with [] => [I] | _ => [I; F] end) with
    | i :: _ => i
    | [] => []
    end = I) by (destruct F; reflexivity).
  unfold Viem.parseUnits. rewrite Hvalid. cbv zeta. cbn [negb].
  rewrite Hparts, Hint, HsI.
  match goal with
  | |- context [stripTrailingZeros ?t] =>
      replace (stripTrailingZeros t) with F
        by (destruct F as [|c r]; [reflexivity | symmetry; exact Hid])
  end.
  assert (HlenF : (length F + m = decimals)%nat).
  { apply (f_equal (@length ascii)) in Hm.
    rewrite length_app, repeat_length in Hm. lia. }
  destruct (decimals =? 0)%nat eqn:E0.
  - apply Nat.eqb_eq in E0.
    assert (HFnil : F = [])
      by (destruct F; [reflexivity | simpl in HlenF; lia]).
    assert (HF0nil : F0 = [])
      by (destruct F0; [reflexivity | simpl in Hlen; lia]).
    rewrite HFnil, HF0nil. unfold Viem.Math_round_Number.
    change (str_eqb ["."%char] ["."%char]) with true. cbv iota.
    unfold bind. cbn [app]. apply BigInt_digits.
    rewrite app_nil_r. exact HI.
  - destruct (decimals <? length F)%nat eqn:E1;
      [apply Nat.ltb_lt in E1; lia|].
    unfold bind. cbn [app].
    assert (Hpad : padEnd0 F decimals = F0).
    { unfold padEnd0. replace (decimals - length F)%nat with m by lia.
      symmetry. exact Hm. }
    rewrite Hpad. apply BigInt_digits.
    rewrite forallb_app, HI, HF0. reflexivity.
Qed.

(** [parseUnits] undoes [formatUnits] on every non-negative value. *)
Lemma parseUnits_formatUnits (v : Z) (decimals : nat) :
  0 <= v ->
  parseUnits (Viem.parseUnits roundLiteral) (Viem.formatUnits v decimals)
    decimals
  = Some v.
Proof.
  intros Hv.
  destruct (formatUnits_nonneg v decimals Hv)
    as (I & F0 & E & HIne & HI & HF0 & Hlen & Hval).
  unfold parseUnits. rewrite E.
  rewrite replaceFirst_absent.
  - rewrite viemParseUnits_digits by assumption. congruence.
  - intros Hin. apply in_app_or in Hin. destruct Hin as [Hin|Hin].
    + revert Hin. apply digits_not_in; [reflexivity | exact HI].
    + unfold fractionSuffix in Hin.
      destruct (stripTrailingZeros F0) as [|c r] eqn:EF; [exact Hin|].
      destruct Hin as [Hin|Hin]; [discriminate|].
      revert Hin. apply digits_not_in; [reflexivity|].
      rewrite <- EF. apply stripTrailingZeros_digits. exact HF0.
Qed.

End Parsing.

(** ** Round trip *)

Lemma formatUnits_numeric (v : Z) (decimals : nat) :
  0 <= v -> NumericString PeriodDecimal decimals (Viem.formatUnits v decimals).
Proof.
  intros Hv.
  destruct (formatUnits_nonneg v decimals Hv)
    as (I & F0 & E & HIne & HI & HF0 & Hlen & Hval).
  rewrite E. unfold fractionSuffix.
  pose proof (stripTrailingZeros_digits F0 HF0) as HF.
  destruct (stripTrailingZeros_spec F0) as [m Hm].
  destruct (stripTrailingZeros F0) as [|c r] eqn:EF.
  - rewrite app_nil_r. apply numeric_whole. exact HI.
  - apply (numeric_fraction PeriodDecimal decimals I (c :: r)); auto.
    apply (f_equal (@length ascii)) in Hm. rewrite length_app in Hm. lia.
Qed.

(** With the period as decimal separator the round trip holds: formatting
    a non-negative value, masking, unmasking and parsing gives the value
    back, at every scale. *)
Lemma round_trip_period (roundLiteral : str -> Z) (v : Z) (decimals : nat) :
  0 <= v ->
  parseUnits (Viem.parseUnits roundLiteral)
    (unmask (mask (Viem.formatUnits v decimals) PeriodDecimal) PeriodDecimal)
    decimals
  = Some v.
Proof.
  intros Hv.
  rewrite (unmask_mask_numeric PeriodDecimal decimals)
    by (apply formatUnits_numeric; exact Hv).
  apply parseUnits_formatUnits. exact Hv.
Qed.

(** C1, with the comma as decimal separator: [formatUnits] writes the
    point as a period, which the mask then takes for a thousands separator
    and the unmask removes. The value 15 at scale 1 is formatted and masked
    as "1.5", unmasked as "15" and parsed as 150; with the period as
    decimal separator the same value comes back as 15. *)
Theorem round_trip_fails_comma_locale (roundLiteral : str -> Z) :
  mask (Viem.formatUnits 15 1) CommaDecimal = js:"1.5"
  /\ unmask (mask (Viem.formatUnits 15 1) CommaDecimal) CommaDecimal = js:"15"
  /\ parseUnits (Viem.parseUnits roundLiteral)
       (unmask (mask (Viem.formatUnits 15 1) CommaDecimal) CommaDecimal) 1
     = Some 150
  /\ parseUnits (Viem.parseUnits roundLiteral)
       (unmask (mask (Viem.formatUnits 15 1) PeriodDecimal) PeriodDecimal) 1
     = Some 15.
Proof. repeat split. Qed.

(** ** Worked examples *)

(** Truncation, not rounding. *)
Example truncation :
  toNumericString js:"1.239" 2 PeriodDecimal = js:"1.23".
Proof. reflexivity. Qed.

(** Only the first decimal separator is kept. *)
Example first_separator_kept :
  toNumericString js:"1.2.3" 5 PeriodDecimal = js:"1.23"
  /\ toNumericString js:"1,2,3" 5 CommaDecimal = js:"1,23".
Proof. split; reflexivity. Qed.

(** Thousands grouping. *)
Example thousands_grouping :
  mask js:"1234567" PeriodDecimal = js:"1,234,567"
  /\ mask js:"1234567.5" PeriodDecimal = js:"1,234,567.5"
  /\ mask js:"1234567,5" CommaDecimal = js:"1.234.567,5".
Proof. repeat split. Qed.

(** The caret advances when masking inserts a separator. *)
Example caret_advances :
  handleMaskedInput PeriodDecimal
    {| target_value := js:"10000";
       target_selectionStart := Some 5%nat;
       nativeEvent_inputType := Some "insertText"%string |} 18 PeriodDecimal
  = {| numericValue := js:"10000"; maskedValue := js:"10,000"; cursor := 6 |}.
Proof. reflexivity. Qed.

(** The other deletion of the source's comment: only a digit goes, and the
    caret retreats by one. *)
Example separator_delete_one_character :
  handleMaskedInput PeriodDecimal (backwardDeletion js:"10,000,000000" 10) 18
    PeriodDecimal
  = {| numericValue := js:"1000000000";
       maskedValue := js:"1,000,000,000";
       cursor := 9 |}.
Proof. reflexivity. Qed.

(** Formatting and parsing scaled values. *)
Example formatUnits_examples :
  Viem.formatUnits 12345 1 = js:"1234.5"
  /\ Viem.formatUnits 1 3 = js:"0.001"
  /\ Viem.formatUnits 1000 3 = js:"1"
  /\ Viem.formatUnits 0 3 = js:"0"
  /\ Viem.formatUnits 123456789000000000000000000 18 = js:"123456789".
Proof. repeat split. Qed.

Example parseUnits_examples (roundLiteral : str -> Z) :
  parseUnits (Viem.parseUnits roundLiteral) js:"1234.5" 1 = Some 12345
  /\ parseUnits (Viem.parseUnits roundLiteral) js:"1234,5" 1 = Some 12345
  /\ parseUnits (Viem.parseUnits roundLiteral) js:"" 3 = Some 0
  /\ parseUnits (Viem.parseUnits roundLiteral) js:"1." 3 = Some 1000
  /\ parseUnits (Viem.parseUnits roundLiteral) js:"12" 0 = Some 12
  /\ parseUnits (Viem.parseUnits roundLiteral) js:"1.2.3" 3 = None.
Proof. repeat split. Qed.

(** * Further properties *)

(** ** Undo and redo *)

Section HistoryCompose.

Variable T : Type.
Variable T_eq_dec : forall a b : T, {a = b} + {a <> b}.
Variable undefined : T.

Local Abbreviation set := (set T T_eq_dec).
Local Abbreviation set_app := (set_app T).
Local Abbreviation undo := (undo T undefined).
Local Abbreviation redo := (redo T T_eq_dec undefined).
Local Abbreviation at_index := (at_index T undefined).
Local Abbreviation coherent := (coherent T undefined).
Local Abbreviation onKeyDown := (onKeyDown T T_eq_dec undefined).

Lemma slice_kept (h : History T) :
  well_formed h ->
  slice (history h) 0 (index h + 1) = keptEntries h
  /\ len (keptEntries h) = index h + 1.
Proof.
  intros [Hi _]. unfold keptEntries, len in *.
  replace (index h + 1) with (Z.of_nat (S (Z.to_nat (index h)))) by lia.
  rewrite slice_prefix by lia. split; [reflexivity|].
  rewrite length_firstn. lia.
Qed.

Lemma at_index_last (l : list T) (x : T) : at_index (l ++ [x]) (len l) = x.
Proof.
  unfold StateWithHistory.at_index, len.
  destruct (_ <? 0) eqn:E; [apply Z.ltb_lt in E; lia|].
  rewrite Nat2Z.id. apply nth_middle.
Qed.

Lemma at_index_kept (h : History T) (x : T) :
  well_formed h ->
  at_index (keptEntries h ++ [x]) (index h) = at_index (history h) (index h).
Proof.
  intros [Hi _]. unfold StateWithHistory.at_index, keptEntries, len in *.
  destruct (index h <? 0) eqn:E; [reflexivity|].
  rewrite app_nth1 by (rewrite length_firstn; lia).
  rewrite <- (firstn_skipn (S (Z.to_nat (index h))) (history h)) at 2.
  rewrite app_nth1 by (rewrite length_firstn; lia). reflexivity.
Qed.

(** What a [set] with a new value does. *)
Lemma set_new_value (h : History T) (v : T) (calls : History T * list T) :
  well_formed h -> v <> state h ->
  calls = ({| state := v;
              history := keptEntries h ++ [v];
              index := index h + 1 |}, [v]) ->
  (forall f, f (state h) = v -> set (Updater f) h = calls)
  /\ set (Value v) h = calls /\ set_app v h = calls.
Proof.
  intros Hwf Hne ->. destruct (slice_kept h Hwf) as [Hs Hl].
  assert (E : StateWithHistory.set_app T v h
              = ({| state := v; history := keptEntries h ++ [v];
                    index := index h + 1 |}, [v])).
  { unfold StateWithHistory.set_app. rewrite Hs, len_app_one, Hl.
    do 2 f_equal. lia. }
  split; [intros f Hf | split; [|exact E]];
    unfold StateWithHistory.set; try rewrite Hf;
    (destruct (T_eq_dec v (state h)); [contradiction | exact E]).
Qed.

Lemma set_resolved (h : History T) (a : SetArg T) :
  well_formed h -> resolve a h <> state h ->
  set a h = ({| state := resolve a h;
                history := keptEntries h ++ [resolve a h];
                index := index h + 1 |}, [resolve a h]).
Proof.
  intros Hwf Hne.
  destruct (set_new_value h (resolve a h) _ Hwf Hne eq_refl) as (Hu & Hv & _).
  destruct a as [v|f]; [exact Hv | apply Hu; reflexivity].
Qed.

Lemma undo_after_set (h : History T) (v : T) :
  well_formed h -> coherent h ->
  undo {| state := v; history := keptEntries h ++ [v]; index := index h + 1 |}
  = ({| state := state h; history := keptEntries h ++ [v]; index := index h |},
     [state h]).
Proof.
  intros Hwf Hco. pose proof Hwf as [Hi _].
  unfold StateWithHistory.undo. cbn [index history].
  destruct (index h + 1 =? 0) eqn:E; [apply Z.eqb_eq in E; lia|].
  replace (index h + 1 - 1) with (index h) by lia.
  rewrite at_index_kept by exact Hwf. rewrite <- Hco. reflexivity.
Qed.

Lemma redo_undo_id (h : History T) :
  well_formed h -> coherent h -> index h <> 0 -> state h <> undefined ->
  redo (fst (undo h)) = (h, [state h]).
Proof.
  intros [Hi _] Hco Hne Hdef. unfold StateWithHistory.undo.
  destruct (index h =? 0) eqn:E; [apply Z.eqb_eq in E; contradiction|].
  cbn [fst]. unfold StateWithHistory.redo. cbn [index history].
  replace (index h - 1 + 1) with (index h) by lia.
  rewrite <- Hco.
  destruct (T_eq_dec (state h) undefined); [contradiction|].
  destruct h; reflexivity.
Qed.

(** X1. Undoing a [set]: in a well-formed history whose current value is
    the entry under the pointer, a [set] to a different value followed by
    [undo] brings back the value and the pointer; the entries are those up
    to the pointer followed by the new value, which [redo] can reach. *)
Theorem set_then_undo (h : History T) (a : SetArg T) :
  well_formed h -> coherent h -> resolve a h <> state h ->
  fst (undo (fst (set a h)))
  = {| state := state h;
       history := keptEntries h ++ [resolve a h];
       index := index h |}.
Proof.
  intros Hwf Hco Hne. rewrite set_resolved by assumption. cbn [fst].
  rewrite undo_after_set by assumption. reflexivity.
Qed.

(** X2. A [set] to a different value discards what could be redone: the
    entries after the pointer are dropped, the new value is appended as the
    last entry, and [redo] right after it does nothing and calls
    [setState] not at all. *)
Theorem set_discards_future (h : History T) (a : SetArg T) :
  well_formed h -> resolve a h <> state h ->
  history (fst (set a h)) = keptEntries h ++ [resolve a h]
  /\ index (fst (set a h)) = len (history (fst (set a h))) - 1
  /\ redo (fst (set a h)) = (fst (set a h), []).
Proof.
  intros Hwf Hne. rewrite set_resolved by assumption. cbn [fst history index].
  destruct (slice_kept h Hwf) as [_ Hl].
  split; [reflexivity|]. split; [rewrite len_app_one; lia|].
  unfold StateWithHistory.redo. cbn [index history].
  rewrite at_index_out_of_range by (rewrite len_app_one; lia).
  destruct (T_eq_dec undefined undefined); [reflexivity | congruence].
Qed.

(** X3. Undo then redo: away from the first entry, in a well-formed
    history whose current value is the entry under the pointer and is not
    [undefined], [undo] followed by [redo] gives the same history back, and
    the [redo] sets the state to the value it had. *)
Theorem undo_then_redo (h : History T) :
  well_formed h -> coherent h -> index h <> 0 -> state h <> undefined ->
  redo (fst (undo h)) = (h, [state h]).
Proof. exact (redo_undo_id h). Qed.

(** X4. Redo then undo: when the entry after the pointer is not
    [undefined], [redo] followed by [undo] gives the same history back. *)
Theorem redo_then_undo (h : History T) :
  well_formed h -> coherent h ->
  at_index (history h) (index h + 1) <> undefined ->
  fst (undo (fst (redo h))) = h.
Proof.
  intros [Hi _] Hco Hdef. unfold StateWithHistory.redo.
  destruct (T_eq_dec _ undefined); [contradiction|].
  cbn [fst]. unfold StateWithHistory.undo. cbn [index history].
  destruct (index h + 1 =? 0) eqn:E; [apply Z.eqb_eq in E; lia|].
  cbn [fst]. replace (index h + 1 - 1) with (index h) by lia.
  rewrite <- Hco. destruct h; reflexivity.
Qed.

(** X5. An entry that is [undefined] cannot be redone: after a [set] to
    [undefined] and an [undo], the value and the pointer are back, the
    [undefined] entry is the next one, and [redo] does nothing, because it
    takes the entry for the end of the list. *)
Theorem undefined_blocks_redo (h : History T) :
  well_formed h -> coherent h -> state h <> undefined ->
  let h' := fst (undo (fst (set (Value undefined) h))) in
  h' = {| state := state h;
          history := keptEntries h ++ [undefined];
          index := index h |}
  /\ index h' + 1 < len (history h')
  /\ redo h' = (h', []).
Proof.
  intros Hwf Hco Hdef. cbv zeta.
  rewrite (set_resolved h (Value undefined)) by (cbn; auto).
  cbn [fst resolve]. rewrite undo_after_set by assumption. cbn [fst].
  destruct (slice_kept h Hwf) as [_ Hl].
  split; [reflexivity|]. cbn [index history].
  split; [rewrite len_app_one; lia|].
  unfold StateWithHistory.redo. cbn [index history].
  rewrite <- Hl, at_index_last.
  destruct (T_eq_dec undefined undefined); [reflexivity | congruence].
Qed.

(** *** The copy of the hook in the demo application *)

Lemma well_formed_set_app (v : T) (h : History T) :
  well_formed h -> well_formed (fst (set_app v h)).
Proof.
  intros Hwf. unfold StateWithHistory.set_app, well_formed.
  cbn [fst index history]. split.
  - rewrite len_app_one.
    pose proof (len_nonneg _ (slice (history h) 0 (index h + 1))). lia.
  - intros E. apply app_eq_nil in E. destruct E as [_ E]. discriminate.
Qed.

Lemma coherent_set_app (v : T) (h : History T) :
  coherent (fst (set_app v h)).
Proof.
  unfold StateWithHistory.set_app, StateWithHistory.coherent.
  cbn [fst index history state]. rewrite len_app_one.
  replace (len (slice (history h) 0 (index h + 1)) + 1 - 1)
    with (len (slice (history h) 0 (index h + 1))) by lia.
  symmetry. apply at_index_last.
Qed.

Lemma coherent_undo (h : History T) : coherent h -> coherent (fst (undo h)).
Proof.
  intros Hco. unfold StateWithHistory.undo.
  destruct (index h =? 0); [exact Hco | reflexivity].
Qed.

Lemma coherent_redo (h : History T) : coherent h -> coherent (fst (redo h)).
Proof.
  intros Hco. unfold StateWithHistory.redo.
  destruct (T_eq_dec _ _); [exact Hco | reflexivity].
Qed.

(** X6. The copy of the hook in the demo application keeps the same
    invariant: after any finite sequence of its set, undo and redo from the
    initial state, 0 <= index < entries.length, the entries are not empty
    and the current value is the entry under the pointer. *)
Theorem app_history_invariant (initialState : T) (ops : list (AppOp T)) :
  let h := run_app T T_eq_dec undefined ops (initial initialState) in
  0 <= index h < len (history h) /\ history h <> [] /\ coherent h.
Proof.
  cbv zeta.
  assert (Hgen : forall h, well_formed h /\ coherent h ->
            well_formed (run_app T T_eq_dec undefined ops h)
            /\ coherent (run_app T T_eq_dec undefined ops h)).
  { induction ops as [|op ops IH]; intros h Hh; [exact Hh|].
    apply IH. destruct Hh as [Hwf Hco].
    destruct op as [v| |]; unfold step_app; split;
      auto using well_formed_set_app, coherent_set_app, well_formed_undo,
        coherent_undo, well_formed_redo, coherent_redo. }
  destruct (Hgen (initial initialState)) as [[Hi Hne] Hco].
  - split; [apply well_formed_initial | reflexivity].
  - auto.
Qed.

(** *** The keyboard shortcut *)

(** X7. The undo shortcut and the redo shortcut undo each other: on a
    history as in X3, Meta+Z followed by Meta+Shift+Z gives the same
    history back, and both events have their default action prevented. A
    key event without the Meta key, or with another key, changes nothing,
    calls [setState] not at all and keeps its default action. *)
Theorem shortcut_undo_redo (h : History T) (e : KeyboardEvent) :
  well_formed h -> coherent h -> index h <> 0 -> state h <> undefined ->
  let metaZ shift := {| metaKey := true; shiftKey := shift; code := "KeyZ" |} in
  onKeyDown (metaZ true) (fst (fst (onKeyDown (metaZ false) h)))
  = (h, [state h], true)
  /\ snd (onKeyDown (metaZ false) h) = true
  /\ (metaKey e = false \/ code e <> "KeyZ"%string ->
      onKeyDown e h = (h, [], false)).
Proof.
  intros Hwf Hco Hne Hdef. cbv zeta.
  unfold StateWithHistory.onKeyDown. cbn [metaKey shiftKey code andb fst snd].
  change (String.eqb "KeyZ" "KeyZ") with true. cbv iota. cbn [fst snd].
  rewrite redo_undo_id by assumption.
  split; [reflexivity|]. split; [reflexivity|].
  intros [Hm|Hc]; [rewrite Hm; reflexivity|].
  apply String.eqb_neq in Hc. rewrite Hc, andb_false_r. reflexivity.
Qed.

End HistoryCompose.

(** ** Grouping by thousands *)

Lemma mod3_step (n : nat) : (S (S (S n)) mod 3 = n mod 3)%nat.
Proof.
  replace (S (S (S n))) with (n + 1 * 3)%nat by lia.
  apply Nat.Div0.mod_add.
Qed.

(** On digits the lookahead succeeds exactly on a positive multiple of
    three of them. *)
Lemma groupsOfThree_digits (s : str) :
  forallb isDigit s = true ->
  groupsOfThree s = (0 <? length s)%nat && (length s mod 3 =? 0)%nat.
Proof.
  assert (H : forall n s, (length s <= n)%nat -> forallb isDigit s = true ->
            groupsOfThree s = (0 <? length s)%nat && (length s mod 3 =? 0)%nat).
  { induction n as [|n IH]; intros s' Hlen Hd.
    - destruct s'; [reflexivity | simpl in Hlen; lia].
    - destruct s' as [|d1 [|d2 [|d3 rest]]]; try reflexivity.
      cbn [forallb] in Hd.
      repeat (apply andb_true_iff in Hd; destruct Hd as [? Hd]).
      cbn [groupsOfThree length]. rewrite mod3_step.
      repeat match goal with H : isDigit _ = true |- _ => rewrite H; clear H end.
      cbn [andb Nat.ltb Nat.leb].
      destruct rest as [|c r].
      + reflexivity.
      + pose proof Hd as Hd'. cbn [forallb] in Hd'.
        apply andb_true_iff in Hd'. destruct Hd' as [Hc _]. rewrite Hc.
        cbn [negb orb]. rewrite IH by (simpl in *; auto; lia). reflexivity. }
  intros Hd. apply (H (length s)); auto.
Qed.

Lemma isWord_digit (c : ascii) : isDigit c = true -> isWord c = true.
Proof. intros H. unfold isWord. rewrite H. reflexivity. Qed.

Lemma insertSeparators_digits (sep p : ascii) (r : str) :
  isDigit p = true -> forallb isDigit r = true ->
  insertSeparators sep (Some p) r
  = (if (0 <? length r)%nat && (length r mod 3 =? 0)%nat then [sep] else [])
    ++ groupFromRight sep r.
Proof.
  revert p. induction r as [|c r IH]; intros p Hp Hr; [reflexivity|].
  pose proof Hr as Hr'. cbn [forallb] in Hr'.
  apply andb_true_iff in Hr'. destruct Hr' as [Hc Hr'].
  cbn [insertSeparators groupFromRight].
  rewrite (groupsOfThree_digits (c :: r) Hr).
  unfold nonBoundary. rewrite (isWord_digit p Hp), (isWord_digit c Hc).
  cbn [Bool.eqb andb]. rewrite (IH c Hc Hr'). reflexivity.
Qed.

Lemma insertSeparators_groupFromRight (sep : ascii) (w : str) :
  forallb isDigit w = true ->
  insertSeparators sep None w = groupFromRight sep w.
Proof.
  intros Hw. destruct w as [|c r]; [reflexivity|].
  cbn [forallb] in Hw. apply andb_true_iff in Hw. destruct Hw as [Hc Hr].
  rewrite insertSeparators_head, insertSeparators_digits by assumption.
  reflexivity.
Qed.

Lemma length_groupFromRight (sep : ascii) (w : str) :
  length (groupFromRight sep w) = (length w + (length w - 1) / 3)%nat.
Proof.
  induction w as [|c r IH]; [reflexivity|].
  cbn [groupFromRight length]. rewrite length_app, IH.
  replace (S (length r) - 1)%nat with (length r) by lia.
  set (n := length r).
  pose proof (Nat.div_mod_eq n 3) as E1.
  assert (B1 : (n mod 3 < 3)%nat) by (apply Nat.mod_upper_bound; lia).
  pose proof (Nat.div_mod_eq (n - 1) 3) as E2.
  assert (B2 : ((n - 1) mod 3 < 3)%nat) by (apply Nat.mod_upper_bound; lia).
  destruct (Nat.ltb_spec 0 n) as [Hpos|Hpos];
    destruct (Nat.eqb_spec (n mod 3) 0) as [Hmod|Hmod];
    cbn [andb length]; lia.
Qed.

(** X8. Thousands grouping: on a whole part of digits, [mask] puts a
    thousands separator after a digit exactly when the digits that remain
    are a positive multiple of three, which is the grouping from the right
    that the specification words; the fraction is left as it is, and a
    whole part of n digits takes (n - 1) / 3 separators. *)
Theorem mask_groups_from_right (o : FormattingOptions) (w f : str) :
  forallb isDigit w = true -> forallb isDigit f = true ->
  mask w o = groupFromRight (thousandsSeparator o) w
  /\ mask (w ++ decimalSeparator o :: f) o
     = groupFromRight (thousandsSeparator o) w ++ decimalSeparator o :: f
  /\ length (mask w o) = (length w + (length w - 1) / 3)%nat.
Proof.
  intros Hw Hf.
  rewrite mask_whole, mask_fraction by assumption.
  rewrite insertSeparators_groupFromRight by assumption.
  rewrite length_groupFromRight. auto.
Qed.

Lemma mask_groups_from_right_witness :
  mask js:"1234567" PeriodDecimal = js:"1,234,567"
  /\ mask js:"1234567.50" PeriodDecimal = js:"1,234,567.50"
  /\ length (mask js:"1234567" PeriodDecimal) = 9%nat.
Proof.
  apply (mask_groups_from_right PeriodDecimal js:"1234567" js:"50");
    reflexivity.
Defined.

(** ** Normalization of the raw text *)

Lemma count_occ_digits (c : ascii) (s : str) :
  isDigit c = false -> forallb isDigit s = true ->
  count_occ ascii_dec s c = 0%nat.
Proof.
  intros Hc Hs. apply count_occ_not_In. apply digits_not_in; assumption.
Qed.

(** X9. The grammar of normalized text: whatever the raw text, the scale
    and the options, [toNumericString] returns digits, then possibly the
    decimal separator and at most [decimals] digits; so the separator
    occurs at most once and the thousands separator never. *)
Theorem toNumericString_grammar
    (o : FormattingOptions) (raw : str) (decimals : nat) :
  NumericString o decimals (toNumericString raw decimals o)
  /\ (count_occ ascii_dec (toNumericString raw decimals o)
        (decimalSeparator o) <= 1)%nat
  /\ ~ In (thousandsSeparator o) (toNumericString raw decimals o).
Proof.
  pose proof (toNumericString_numeric raw decimals o) as Hn.
  split; [exact Hn|]. split; [|eapply numeric_no_thousands; eauto].
  pose proof (decimalSeparator_not_digit o) as Hd.
  destruct Hn as [w Hw|w f Hw Hf _].
  - rewrite count_occ_digits by assumption. lia.
  - rewrite count_occ_app. cbn [count_occ].
    destruct (ascii_dec _ _); [|congruence].
    rewrite !count_occ_digits by assumption. lia.
Qed.

Lemma filter_filter_weaker (A : Type) (P Q : A -> bool) (l : list A) :
  (forall x, P x = true -> Q x = true) ->
  filter P (filter Q l) = filter P l.
Proof.
  intros HPQ. induction l as [|x l IH]; [reflexivity|].
  cbn [filter]. destruct (Q x) eqn:EQ; cbn [filter].
  - rewrite IH. reflexivity.
  - destruct (P x) eqn:EP; [rewrite (HPQ x EP) in EQ; discriminate|].
    exact IH.
Qed.

Lemma slice_without_last (A : Type) (s : list A) (x : A) :
  slice (s ++ [x]) 0 (-1) = s.
Proof.
  unfold slice, relIndex, len. rewrite length_app. cbn [length].
  change (0 <? 0) with false. change (-1 <? 0) with true. cbv iota.
  replace (Z.to_nat (Z.max (Z.of_nat (length s + 1) + -1) 0)
           - Z.to_nat (Z.min 0 (Z.of_nat (length s + 1))))%nat
    with (length s) by lia.
  replace (Z.to_nat (Z.min 0 (Z.of_nat (length s + 1)))) with 0%nat by lia.
  cbn [skipn]. rewrite firstn_app, Nat.sub_diag, firstn_all. cbn [firstn].
  apply app_nil_r.
Qed.

Lemma endsWith_snoc (c : ascii) (s : str) :
  endsWith c s = true -> exists s', s = s' ++ [c].
Proof.
  unfold endsWith. intros H. destruct (rev s) as [|x r] eqn:E; [discriminate|].
  apply Ascii.eqb_eq in H. subst x. exists (rev r).
  rewrite <- (rev_involutive s), E. reflexivity.
Qed.

Lemma endsWith_last (c x : ascii) (s : str) :
  endsWith c (s ++ [x]) = Ascii.eqb x c.
Proof. unfold endsWith. rewrite rev_app_distr. reflexivity. Qed.

(** Replacing a trailing thousands separator by the decimal separator
    leaves the digits as they are. *)
Lemma normalized_digits (o : FormattingOptions) (value : str) :
  filter isDigit
    (if endsWith (thousandsSeparator o) value
     then slice value 0 (-1) ++ [decimalSeparator o] else value)
  = filter isDigit value.
Proof.
  destruct (endsWith (thousandsSeparator o) value) eqn:E; [|reflexivity].
  destruct (endsWith_snoc _ _ E) as [s' ->].
  rewrite slice_without_last, !filter_app. cbn [filter].
  rewrite decimalSeparator_not_digit, thousandsSeparator_not_digit.
  reflexivity.
Qed.

Lemma removeAll_filter_digits (sep : ascii) (t : str) :
  forallb (fun c => isDigit c || Ascii.eqb c sep) t = true ->
  isDigit sep = false ->
  removeAll sep t = filter isDigit t.
Proof.
  intros Hall Hsep. induction t as [|c r IH]; [reflexivity|].
  cbn [forallb] in Hall. apply andb_true_iff in Hall. destruct Hall as [Hc Hr].
  unfold removeAll in *. cbn [filter].
  destruct (Ascii.eqb_spec c sep) as [->|Hne]; cbn [negb].
  - rewrite Hsep. auto.
  - rewrite orb_false_r in Hc. rewrite Hc, IH by assumption. reflexivity.
Qed.

(** X10. Normalization keeps the digits in order and drops them only from
    the end: the digits of [toNumericString raw decimals] are a prefix of
    the digits of the raw text. *)
Theorem toNumericString_digits_prefix
    (o : FormattingOptions) (raw : str) (decimals : nat) :
  exists dropped,
    filter isDigit raw
    = filter isDigit (toNumericString raw decimals o) ++ dropped.
Proof.
  unfold toNumericString. cbv zeta.
  destruct (str_eqb raw [decimalSeparator o]);
    [exists (filter isDigit raw); reflexivity|].
  rewrite <- (normalized_digits o raw).
  match goal with
  | |- context [filter ?k ?x] =>
      match k with isDigit => fail 1 | _ => set (keep := k); set (v := x) end
  end.
  rewrite <- (filter_filter_weaker _ isDigit keep v)
    by (intros x Hx; unfold keep; rewrite Hx; reflexivity).
  pose proof (forallb_filter_same _ keep v) as Hkeep.
  assert (Hsep : isDigit (decimalSeparator o) = false)
    by apply decimalSeparator_not_digit.
  destruct (split_first (decimalSeparator o) (filter keep v))
    as (w & rest & E & Hnin & Hcase).
  rewrite E. destruct Hcase as [[-> Hw]|(t & Ht & ->)].
  - exists []. rewrite Hw, app_nil_r. reflexivity.
  - rewrite Ht in Hkeep |- *. rewrite forallb_app in Hkeep.
    apply andb_true_iff in Hkeep. destruct Hkeep as [Hw Ht'].
    cbn [forallb] in Ht'. apply andb_true_iff in Ht'. destruct Ht' as [_ Ht'].
    pose proof (split_not_nil (decimalSeparator o) t) as Hnn.
    destruct (split (decimalSeparator o) t) as [|p ps] eqn:Es; [congruence|].
    rewrite <- Es. unfold substring0, join_empty. rewrite concat_split.
    rewrite (removeAll_filter_digits _ t Ht' Hsep).
    exists (skipn decimals (filter isDigit t)).
    rewrite !filter_app. cbn [filter]. rewrite Hsep.
    rewrite <- app_assoc. f_equal.
    assert (Hd : forallb isDigit (firstn decimals (filter isDigit t)) = true)
      by (apply forallb_firstn, forallb_filter_same).
    rewrite (forallb_filter_id _ _ Hd). symmetry. apply firstn_skipn.
Qed.

(** ** The handler of user edits *)

Lemma forallb_skipn (A : Type) (P : A -> bool) (n : nat) (l : list A) :
  forallb P l = true -> forallb P (skipn n l) = true.
Proof.
  revert n. induction l as [|x l IH]; intros [|n] H; simpl in *; auto.
  apply andb_true_iff in H. destruct H as [_ Hl]. auto.
Qed.

Lemma remove_digit (j : nat) (w : str) :
  forallb isDigit w = true ->
  forallb isDigit (firstn j w ++ skipn (S j) w) = true.
Proof.
  intros Hw. rewrite forallb_app, forallb_firstn, forallb_skipn by assumption.
  reflexivity.
Qed.

Lemma remove_length (j : nat) (f : str) :
  (length (firstn j f ++ skipn (S j) f) <= length f)%nat.
Proof. rewrite length_app, length_firstn, length_skipn. lia. Qed.

Lemma remove_app (A : Type) (j : nat) (a b : list A) :
  firstn j (a ++ b) ++ skipn (S j) (a ++ b)
  = if (j <? length a)%nat then (firstn j a ++ skipn (S j) a) ++ b
    else a ++ (firstn (j - length a) b ++ skipn (S (j - length a)) b).
Proof.
  rewrite firstn_app, skipn_app.
  destruct (Nat.ltb_spec j (length a)) as [Hlt|Hge].
  - replace (j - length a)%nat with 0%nat by lia.
    replace (S j - length a)%nat with 0%nat by lia.
    cbn [firstn skipn]. rewrite app_nil_r, <- app_assoc. reflexivity.
  - rewrite firstn_all2 by lia. rewrite skipn_all2 by lia.
    replace (S j - length a)%nat with (S (j - length a)) by lia.
    cbn [app]. rewrite <- app_assoc. reflexivity.
Qed.

(** Dropping one character from a numeric string leaves a numeric
    string. *)
Lemma numeric_remove (o : FormattingOptions) (scale j : nat) (n : str) :
  NumericString o scale n ->
  NumericString o scale (firstn j n ++ skipn (S j) n).
Proof.
  intros [w Hw|w f Hw Hf Hlen].
  - apply numeric_whole. apply remove_digit. exact Hw.
  - rewrite remove_app. destruct (j <? length w)%nat.
    + apply numeric_fraction; auto using remove_digit.
    + destruct (j - length w)%nat as [|k].
      * change (firstn 0 (decimalSeparator o :: f)
                ++ skipn 1 (decimalSeparator o :: f)) with f.
        apply numeric_whole. rewrite forallb_app, Hw, Hf. reflexivity.
      * change (firstn (S k) (decimalSeparator o :: f)
                ++ skipn (S (S k)) (decimalSeparator o :: f))
          with (decimalSeparator o :: (firstn k f ++ skipn (S k) f)).
        apply numeric_fraction;
          [exact Hw | apply remove_digit; exact Hf
          | pose proof (remove_length k f); lia].
Qed.

Lemma charAt_end (s : str) : charAt s (len s) = None.
Proof.
  unfold charAt, len. destruct (_ <? 0); [reflexivity|].
  apply nth_error_None. lia.
Qed.

(** The unmasked text that the handler returns is a numeric string. *)
Lemma handleMaskedInput_numeric
    (fo : FormattingOptions) (e : ChangeEvent) (decimals : nat) :
  NumericString fo decimals (numericValue (handleMaskedInput fo e decimals fo)).
Proof.
  pose proof (toNumericString_numeric (target_value e) decimals fo) as Hn.
  unfold handleMaskedInput.
  set (numeric := toNumericString (target_value e) decimals fo) in *.
  set (masked := mask numeric fo).
  match goal with
  | |- context [if ?c then _ else _] => destruct c eqn:C
  end; cbn [numericValue]; [|exact Hn].
  apply andb_true_iff in C. destruct C as [_ C].
  destruct (target_selectionStart e) as [caret|];
    [|rewrite charAt_end in C; discriminate].
  destruct (charAt masked (Z.of_nat caret)) as [c|] eqn:Hc; [|discriminate].
  apply Ascii.eqb_eq in C. subst c.
  destruct (caret_on_separator fo decimals numeric caret Hn Hc)
    as (Hlt & Hrange & Hk).
  fold masked in Hlt, Hrange, Hk.
  rewrite slice_prefix by lia. rewrite length_split.
  set (k := count_occ ascii_dec (firstn caret masked) (thousandsSeparator fo))
    in *.
  replace (Z.of_nat caret - (Z.of_nat (S k) - 1)) with (Z.of_nat (caret - k))
    by lia.
  rewrite removeCharAt_inside by exact Hrange.
  replace (caret - k)%nat with (S (caret - k - 1)) at 2 by lia.
  apply numeric_remove. exact Hn.
Qed.

Lemma handleMaskedInput_masked
    (fo : FormattingOptions) (e : ChangeEvent) (decimals : nat) :
  maskedValue (handleMaskedInput fo e decimals fo)
  = mask (numericValue (handleMaskedInput fo e decimals fo)) fo.
Proof.
  unfold handleMaskedInput.
  match goal with
  | |- context [if ?c then _ else _] => destruct c
  end; reflexivity.
Qed.

Lemma handleMaskedInput_cursor
    (fo : FormattingOptions) (e : ChangeEvent) (decimals : nat)
    (options : FormattingOptions) :
  0 <= cursor (handleMaskedInput fo e decimals options).
Proof.
  unfold handleMaskedInput.
  match goal with
  | |- context [if ?c then _ else _] => destruct c
  end; cbn [cursor]; [|apply adjustCursorPosition_nonneg].
  match goal with
  | |- 0 <= (if ?c >? 0 then _ else _) =>
      destruct (c >? 0) eqn:E; [rewrite Z.gtb_ltb in E; apply Z.ltb_lt in E|];
      lia
  end.
Qed.

(** X11. What the handler returns fits together, on every event: the
    unmasked text is a numeric string, the text to display is its mask,
    unmasking the displayed text gives the unmasked text back, and the caret
    is not negative. *)
Theorem handleMaskedInput_consistent
    (fo : FormattingOptions) (e : ChangeEvent) (decimals : nat) :
  let r := handleMaskedInput fo e decimals fo in
  NumericString fo decimals (numericValue r)
  /\ maskedValue r = mask (numericValue r) fo
  /\ unmask (maskedValue r) fo = numericValue r
  /\ 0 <= cursor r.
Proof.
  cbv zeta. pose proof (handleMaskedInput_numeric fo e decimals) as Hn.
  split; [exact Hn|]. split; [apply handleMaskedInput_masked|].
  split; [|apply handleMaskedInput_cursor].
  rewrite handleMaskedInput_masked.
  apply (unmask_mask_numeric fo decimals). exact Hn.
Qed.

Section EditEcho.

Variable fo : FormattingOptions.
Variable formatUnits : Z -> nat -> str.
Variable viemParseUnits : str -> nat -> option Z.

(** X12. No feedback loop after an edit: when the handler of an edit has
    notified the host of a value and the host supplies that same value
    back under the same scale, the reconciliation leaves the text and the
    caret as the edit set them and notifies nothing. This holds whatever
    [formatUnits] and [parseUnits] compute. *)
Theorem edit_then_echo (e : ChangeEvent) (decimals : nat) (note : Notification) :
  snd (onChange fo viemParseUnits e decimals) = Some note ->
  reconcile fo formatUnits viemParseUnits (Some (n_value note)) decimals
    (fst (onChange fo viemParseUnits e decimals))
  = Some (fst (onChange fo viemParseUnits e decimals), []).
Proof.
  unfold onChange. cbn [fst snd]. intros Hnote.
  unfold reconcile. cbn [Input.internalValue].
  rewrite handleMaskedInput_masked.
  rewrite (unmask_mask_numeric fo decimals)
    by apply handleMaskedInput_numeric.
  unfold bind in *.
  destruct (parseUnits viemParseUnits
              (numericValue (handleMaskedInput fo e decimals fo)) decimals)
    as [v|]; [|discriminate].
  injection Hnote as <-. cbn [n_value]. rewrite Z.eqb_refl. reflexivity.
Qed.

End EditEcho.

(** ** The displayed text as raw text *)

Lemma filter_insertSeparators (P : ascii -> bool) (sep : ascii)
    (prev : option ascii) (s : str) :
  P sep = false -> filter P (insertSeparators sep prev s) = filter P s.
Proof.
  intros Hsep. revert prev. induction s as [|c r IH]; intros prev;
    [reflexivity|].
  cbn [insertSeparators].
  destruct (nonBoundary prev (Some c) && groupsOfThree (c :: r));
    cbn [app filter]; rewrite ?Hsep, IH; reflexivity.
Qed.

Lemma insertSeparators_snoc (sep : ascii) (prev : option ascii) (s : str)
    (x : ascii) :
  exists a, insertSeparators sep prev (s ++ [x]) = a ++ [x].
Proof.
  revert prev. induction s as [|c r IH]; intros prev.
  - cbn [app insertSeparators].
    destruct (nonBoundary prev (Some x) && groupsOfThree [x]);
      [exists [sep] | exists []]; reflexivity.
  - cbn [app insertSeparators]. destruct (IH (Some c)) as [a ->].
    exists ((if nonBoundary prev (Some c) && groupsOfThree (c :: r ++ [x])
             then [sep] else []) ++ c :: a).
    rewrite <- app_assoc. reflexivity.
Qed.

Lemma endsWith_digits (c : ascii) (s : str) :
  isDigit c = false -> forallb isDigit s = true -> s <> [] ->
  forall m, (exists a', m = a' ++ [last s c]) -> endsWith c m = false.
Proof.
  intros Hc Hs Hne m [a' ->]. rewrite endsWith_last.
  destruct (Ascii.eqb_spec (last s c) c) as [E|E]; [|reflexivity].
  exfalso. destruct (exists_last Hne) as (s' & x & ->).
  rewrite last_last in E. subst x.
  rewrite forallb_app in Hs. cbn [forallb] in Hs.
  rewrite Hc in Hs. rewrite andb_false_r in Hs. discriminate.
Qed.

Lemma insertSeparators_endsWith (sep : ascii) (prev : option ascii) (w : str) :
  isDigit sep = false -> forallb isDigit w = true ->
  endsWith sep (insertSeparators sep prev w) = false.
Proof.
  intros Hsep Hw. destruct w as [|c r] eqn:E; [reflexivity|].
  rewrite <- E in *. assert (Hne : w <> []) by (subst; discriminate).
  destruct (exists_last Hne) as (s' & x & Hx).
  apply (endsWith_digits sep w Hsep Hw Hne).
  rewrite Hx, last_last. apply insertSeparators_snoc.
Qed.

(** A masked numeric string never ends with a thousands separator. *)
Lemma mask_endsWith (o : FormattingOptions) (scale : nat) (n : str) :
  NumericString o scale n -> endsWith (thousandsSeparator o) (mask n o) = false.
Proof.
  pose proof (thousandsSeparator_not_digit o) as Ht.
  intros [w Hw|w f Hw Hf _].
  - rewrite mask_whole by assumption.
    apply insertSeparators_endsWith; assumption.
  - rewrite mask_fraction by assumption.
    destruct f as [|c r] eqn:E.
    + rewrite endsWith_last.
      destruct (Ascii.eqb_spec (decimalSeparator o) (thousandsSeparator o))
        as [Heq|]; [exact (False_ind _ (separators_distinct o Heq))|].
      reflexivity.
    + rewrite <- E in *. assert (Hne : f <> []) by (subst; discriminate).
      destruct (exists_last Hne) as (s' & x & Hx).
      apply (endsWith_digits _ f Ht Hf Hne).
      rewrite Hx, last_last.
      exists (insertSeparators (thousandsSeparator o) None w
              ++ decimalSeparator o :: s').
      rewrite <- app_assoc. reflexivity.
Qed.

Lemma filter_keep_mask (o : FormattingOptions) (scale : nat) (n : str) :
  NumericString o scale n ->
  filter (fun c => isDigit c || Ascii.eqb c (decimalSeparator o)) (mask n o)
  = n.
Proof.
  intros Hn. pose proof (numeric_chars o scale n Hn) as Hc.
  assert (Hsep : (fun c => isDigit c || Ascii.eqb c (decimalSeparator o))
                   (thousandsSeparator o) = false).
  { rewrite thousandsSeparator_not_digit.
    destruct (Ascii.eqb_spec (thousandsSeparator o) (decimalSeparator o))
      as [Heq|]; [|reflexivity].
    symmetry in Heq. exact (False_ind _ (separators_distinct o Heq)). }
  destruct Hn as [w Hw|w f Hw Hf _].
  - rewrite mask_whole by assumption.
    rewrite filter_insertSeparators by exact Hsep.
    apply forallb_filter_id. exact Hc.
  - rewrite mask_fraction by assumption.
    rewrite filter_app, filter_insertSeparators by exact Hsep.
    rewrite <- filter_app. apply forallb_filter_id. exact Hc.
Qed.

Lemma mask_is_separator (o : FormattingOptions) (scale : nat) (n : str) :
  NumericString o scale n -> mask n o = [decimalSeparator o] ->
  n = [decimalSeparator o].
Proof.
  intros Hn E. rewrite <- (unmask_mask_numeric o scale n Hn), E.
  unfold unmask, removeAll. cbn [filter].
  destruct (Ascii.eqb_spec (decimalSeparator o) (thousandsSeparator o))
    as [Heq|]; [exact (False_ind _ (separators_distinct o Heq))|].
  reflexivity.
Qed.

Lemma toNumericString_mask (o : FormattingOptions) (scale : nat) (n : str) :
  NumericString o scale n -> n <> [decimalSeparator o] ->
  toNumericString (mask n o) scale o = n.
Proof.
  intros Hn Hne.
  rewrite <- (toNumericString_fixed o scale n Hn Hne) at 2.
  unfold toNumericString. cbv zeta.
  destruct (str_eqb (mask n o) [decimalSeparator o]) eqn:E1.
  { apply str_eqb_eq in E1. apply mask_is_separator with (scale := scale) in E1;
      [contradiction | exact Hn]. }
  destruct (str_eqb n [decimalSeparator o]) eqn:E2;
    [apply str_eqb_eq in E2; contradiction|].
  rewrite (mask_endsWith o scale n Hn).
  destruct (endsWith (thousandsSeparator o) n) eqn:E3;
    [apply endsWith_in in E3; apply numeric_no_thousands in Hn; contradiction|].
  rewrite (filter_keep_mask o scale n Hn).
  rewrite forallb_filter_id by (eapply numeric_chars; eauto).
  reflexivity.
Qed.

(** X13. The displayed text normalizes to itself: when the normalized text
    is not the bare decimal separator, masking it and normalizing the
    masked text again, as the handler does when an event carries the
    displayed text unchanged, gives the same normalized text. *)
Theorem displayed_text_stable
    (o : FormattingOptions) (raw : str) (decimals : nat) :
  toNumericString raw decimals o <> [decimalSeparator o] ->
  toNumericString (mask (toNumericString raw decimals o) o) decimals o
  = toNumericString raw decimals o.
Proof.
  intros Hne. apply toNumericString_mask; [|exact Hne].
  apply toNumericString_numeric.
Qed.

Lemma displayed_text_stable_witness :
  toNumericString
    (mask (toNumericString js:"12x34567.8.9" 2 PeriodDecimal) PeriodDecimal)
    2 PeriodDecimal
  = toNumericString js:"12x34567.8.9" 2 PeriodDecimal.
Proof.
  apply (displayed_text_stable PeriodDecimal js:"12x34567.8.9" 2).
  vm_compute. discriminate.
Defined.

(** ** Parsing what the engine produces *)

Lemma digitsValue_pad (a : str) (k : nat) :
  digitsValue (a ++ repeat "0"%char k) = digitsValue a * 10 ^ Z.of_nat k.
Proof.
  rewrite digitsValue_app.
  pose proof (digitsValue_zeros k []) as Hz. rewrite app_nil_r in Hz.
  rewrite Hz. unfold len. rewrite repeat_length.
  change (digitsValue []) with 0. lia.
Qed.

Lemma digitValue_nonneg (c : ascii) : isDigit c = true -> 0 <= digitValue c.
Proof.
  unfold isDigit, digitValue. intros H. apply andb_true_iff in H.
  destruct H as [H _]. apply Nat.leb_le in H. lia.
Qed.

Lemma digitsValue_nonneg (s : str) :
  forallb isDigit s = true -> 0 <= digitsValue s.
Proof.
  induction s as [|c r IH] using rev_ind; intros Hs; [reflexivity|].
  rewrite forallb_app in Hs. apply andb_true_iff in Hs. destruct Hs as [Hr Hc].
  cbn [forallb] in Hc. rewrite andb_true_r in Hc.
  rewrite digitsValue_app, digitsValue_one. change (len [c]) with 1.
  pose proof (IH Hr). pose proof (digitValue_nonneg c Hc). lia.
Qed.

Lemma replaceFirst_at (c d : ascii) (a b : str) :
  ~ In c a -> replaceFirst c d (a ++ c :: b) = a ++ d :: b.
Proof.
  induction a as [|x r IH]; intros Hnin; cbn [app replaceFirst].
  - rewrite Ascii.eqb_refl. reflexivity.
  - destruct (Ascii.eqb_spec x c) as [->|Hne].
    + exfalso. apply Hnin. left. reflexivity.
    + rewrite IH; [reflexivity|]. intros H. apply Hnin. right. exact H.
Qed.

Section ParsingNumeric.

Variable roundLiteral : str -> Z.

Lemma viem_parse_whole (w : str) (decimals : nat) :
  forallb isDigit w = true ->
  Viem.parseUnits roundLiteral w decimals
  = Some (digitsValue w * 10 ^ Z.of_nat decimals).
Proof.
  intros Hw.
  assert (HsI : startsWith "-" w = false) by (apply startsWith_digits; auto).
  assert (Hvalid : isDecimalNumber w = true).
  { unfold isDecimalNumber. rewrite HsI.
    rewrite <- (app_nil_r w), dropDigits_app by assumption. reflexivity. }
  unfold Viem.parseUnits. rewrite Hvalid. cbv zeta. cbn [negb].
  rewrite split_no_separator by (apply digits_not_in; auto).
  rewrite HsI. change (stripTrailingZeros ["0"%char]) with (@nil ascii).
  destruct (decimals =? 0)%nat eqn:E0.
  - apply Nat.eqb_eq in E0. subst decimals.
    unfold Viem.Math_round_Number.
    change (str_eqb ["."%char] ["."%char]) with true. cbv iota.
    unfold bind. cbn [app]. rewrite BigInt_digits
      by (rewrite app_nil_r; exact Hw).
    rewrite app_nil_r. f_equal. change (10 ^ Z.of_nat 0) with 1. lia.
  - cbn [length Nat.ltb Nat.leb]. unfold bind. cbn [app].
    unfold padEnd0. cbn [app length]. rewrite Nat.sub_0_r.
    rewrite BigInt_digits.
    + rewrite digitsValue_pad. reflexivity.
    + rewrite forallb_app, Hw. cbn [andb].
      apply forallb_forall. intros c Hc. apply repeat_spec in Hc. subst.
      reflexivity.
Qed.

Lemma viem_parse_fraction (w f : str) (decimals : nat) :
  forallb isDigit w = true -> forallb isDigit f = true ->
  (length f <= decimals)%nat ->
  Viem.parseUnits roundLiteral (w ++ "."%char :: f) decimals
  = Some (digitsValue (w ++ f) * 10 ^ Z.of_nat (decimals - length f)).
Proof.
  intros Hw Hf Hlen.
  assert (HsI : startsWith "-" w = false) by (apply startsWith_digits; auto).
  assert (Hs : startsWith "-" (w ++ "."%char :: f) = false).
  { destruct w as [|c r]; [reflexivity|]. exact HsI. }
  assert (Hvalid : isDecimalNumber (w ++ "."%char :: f) = true).
  { unfold isDecimalNumber. rewrite Hs, dropDigits_app by assumption.
    cbn [dropDigits]. change (isDigit ".") with false. cbv iota.
    exact Hf. }
  destruct (stripTrailingZeros_spec f) as [m Hm].
  pose proof (stripTrailingZeros_digits f Hf) as HF.
  set (F := stripTrailingZeros f) in *.
  assert (HlenF : (length F + m = length f)%nat).
  { apply (f_equal (@length ascii)) in Hm.
    rewrite length_app, repeat_length in Hm. lia. }
  assert (Hpad : F ++ repeat "0"%char (decimals - length F)
                 = f ++ repeat "0"%char (decimals - length f)).
  { rewrite Hm at 1. rewrite <- app_assoc, <- repeat_app. do 2 f_equal. lia. }
  unfold Viem.parseUnits. rewrite Hvalid. cbv zeta. cbn [negb].
  rewrite split_at_separator by (apply digits_not_in; auto).
  rewrite split_no_separator by (apply digits_not_in; auto).
  rewrite HsI. fold F. clearbody F.
  assert (Hzeros : forall k, forallb isDigit (repeat "0"%char k) = true).
  { intros k. apply forallb_forall. intros c Hc. apply repeat_spec in Hc.
    subst. reflexivity. }
  destruct (decimals =? 0)%nat eqn:E0.
  - apply Nat.eqb_eq in E0.
    assert (Hfnil : f = []) by (apply length_zero_iff_nil; lia).
    assert (HFnil : F = []) by (apply length_zero_iff_nil; lia).
    rewrite HFnil, Hfnil, E0. unfold Viem.Math_round_Number.
    change (str_eqb ["."%char] ["."%char]) with true. cbv iota.
    unfold bind. cbn [app]. rewrite BigInt_digits
      by (rewrite app_nil_r; exact Hw).
    cbn [length Nat.sub]. change (10 ^ Z.of_nat 0) with 1.
    f_equal. lia.
  - destruct (decimals <? length F)%nat eqn:E1;
      [apply Nat.ltb_lt in E1; lia|].
    unfold bind. cbn [app]. unfold padEnd0. rewrite Hpad.
    rewrite BigInt_digits
      by (rewrite !forallb_app, Hw, Hf, Hzeros; reflexivity).
    rewrite app_assoc, digitsValue_pad. reflexivity.
Qed.

(** The empty text parses to zero. *)
Lemma parseUnits_empty (decimals : nat) :
  parseUnits (Viem.parseUnits roundLiteral) [] decimals = Some 0.
Proof.
  unfold parseUnits. cbn [replaceFirst].
  rewrite viem_parse_whole by reflexivity. reflexivity.
Qed.

Section Locale.

Variable o : FormattingOptions.

Lemma decimal_point (w f : str) :
  forallb isDigit w = true -> forallb isDigit f = true ->
  replaceFirst "," "." (w ++ decimalSeparator o :: f) = w ++ "."%char :: f
  /\ replaceFirst "," "." w = w.
Proof.
  intros Hw Hf.
  assert (Hcw : ~ In ","%char w) by (apply digits_not_in; auto).
  assert (Hcf : ~ In ","%char f) by (apply digits_not_in; auto).
  split; [|apply replaceFirst_absent; exact Hcw].
  destruct o; cbn [decimalSeparator].
  - apply replaceFirst_absent. intros Hin. apply in_app_or in Hin.
    destruct Hin as [Hin|[Hin|Hin]]; [auto | discriminate | auto].
  - apply replaceFirst_at. exact Hcw.
Qed.

(** X14. Parsing shifts the decimal point: under either set of options, a
    whole part [w] and a fraction [f] of at most [decimals] digits, joined
    by the decimal separator, parse to the number spelled by [w] and [f]
    followed by as many zeros as the fraction lacks; a whole part alone
    parses to its number followed by [decimals] zeros. Nothing is thrown
    and nothing is rounded. *)
Theorem parseUnits_shifts_point (w f : str) (decimals : nat) :
  forallb isDigit w = true -> forallb isDigit f = true ->
  (length f <= decimals)%nat ->
  parseUnits (Viem.parseUnits roundLiteral) (w ++ decimalSeparator o :: f)
    decimals
  = Some (digitsValue (w ++ f) * 10 ^ Z.of_nat (decimals - length f))
  /\ parseUnits (Viem.parseUnits roundLiteral) w decimals
     = Some (digitsValue w * 10 ^ Z.of_nat decimals).
Proof.
  intros Hw Hf Hlen. unfold parseUnits.
  destruct (decimal_point w f Hw Hf) as [-> ->].
  split; [apply viem_parse_fraction | apply viem_parse_whole]; assumption.
Qed.

(** Every numeric string parses, to a non-negative value. *)
Lemma parseUnits_numeric (scale : nat) (n : str) :
  NumericString o scale n ->
  exists v, parseUnits (Viem.parseUnits roundLiteral) n scale = Some v
            /\ 0 <= v.
Proof.
  intros [w Hw|w f Hw Hf Hlen]; unfold parseUnits.
  - destruct (decimal_point w [] Hw eq_refl) as [_ Ew].
    rewrite Ew, viem_parse_whole by assumption. eexists. split; [reflexivity|].
    pose proof (digitsValue_nonneg w Hw).
    apply Z.mul_nonneg_nonneg; [assumption | apply Z.pow_nonneg; lia].
  - destruct (decimal_point w f Hw Hf) as [Ef _].
    rewrite Ef, viem_parse_fraction by assumption.
    eexists. split; [reflexivity|].
    assert (0 <= digitsValue (w ++ f))
      by (apply digitsValue_nonneg; rewrite forallb_app, Hw, Hf; reflexivity).
    apply Z.mul_nonneg_nonneg; [assumption | apply Z.pow_nonneg; lia].
Qed.

(** X15. An edit always notifies: whatever the event, the raw text, the
    caret and the scale, [parseUnits] does not throw on the text the
    handler produces, and the host is notified once with a non-negative
    value, the displayed text, and the flag that tells an edit from a
    change of the props. *)
Theorem onChange_always_notifies (e : ChangeEvent) (decimals : nat) :
  exists v,
    snd (onChange o (Viem.parseUnits roundLiteral) e decimals)
    = Some {| n_value := v;
              n_rawValue := maskedValue (handleMaskedInput o e decimals o);
              n_changedFromProps := false |}
    /\ 0 <= v.
Proof.
  unfold onChange. cbn [snd].
  destruct (parseUnits_numeric decimals _ (handleMaskedInput_numeric o e decimals))
    as (v & Hv & Hpos).
  exists v. rewrite Hv. split; [reflexivity | exact Hpos].
Qed.

End Locale.

(** X16. The reconciliation settles when the period is the decimal
    separator: once a render has reconciled the field with a supplied
    non-negative value, the next render with the same value and scale
    changes nothing and notifies nothing. *)
Theorem reconcile_settles (X : Z) (decimals : nat) (input st : Input.t)
    (notes : list Notification) :
  0 <= X ->
  reconcile PeriodDecimal Viem.formatUnits (Viem.parseUnits roundLiteral)
    (Some X) decimals input = Some (st, notes) ->
  reconcile PeriodDecimal Viem.formatUnits (Viem.parseUnits roundLiteral)
    (Some X) decimals st = Some (st, []).
Proof.
  intros HX H. pose proof H as H0. unfold reconcile, bind in H.
  destruct (parseUnits _ (unmask (Input.internalValue input) PeriodDecimal)
              decimals) as [p|] eqn:Ep; [|discriminate].
  destruct (X =? p) eqn:E; cbn [negb] in H.
  - injection H as <- <-. exact H0.
  - injection H as <- _. unfold reconcile, bind. cbn [Input.internalValue].
    destruct (X =? 0) eqn:EX.
    + apply Z.eqb_eq in EX. subst X.
      change (unmask [] PeriodDecimal) with (@nil ascii).
      rewrite parseUnits_empty. reflexivity.
    + rewrite round_trip_period by exact HX. rewrite Z.eqb_refl. reflexivity.
Qed.



(** X17. Mounting does not notify when the period is the decimal
    separator: the state that the hook starts with for a supplied
    non-negative value is already reconciled with that value, so the first
    render changes nothing and sends no notification. *)
Theorem initial_input_reconciled (X : Z) (decimals : nat) :
  0 <= X ->
  reconcile PeriodDecimal Viem.formatUnits (Viem.parseUnits roundLiteral)
    (Some X) decimals (initialInput PeriodDecimal Viem.formatUnits (Some X) decimals)
  = Some (initialInput PeriodDecimal Viem.formatUnits (Some X) decimals, []).
Proof.
  intros HX. unfold reconcile, initialInput, truthy, bind.
  cbn [Input.internalValue].
  destruct (X =? 0) eqn:EX; cbn [negb].
  - apply Z.eqb_eq in EX. subst X.
    change (unmask [] PeriodDecimal) with (@nil ascii).
    rewrite parseUnits_empty. reflexivity.
  - rewrite round_trip_period by exact HX. rewrite Z.eqb_refl. reflexivity.
Qed.

End ParsingNumeric.

(** ** The helper that drops a character *)

(** X18. The bounds of [removeCharAt]: it drops exactly one character,
    the one before offset [index], when 1 <= index <= length; beyond the
    length it returns the text as it is; at index 0 it drops nothing and
    returns the text without its last character followed by the whole
    text. *)
Theorem removeCharAt_bounds (value : str) (index : Z) :
  (1 <= index <= len value ->
   removeCharAt value index
   = firstn (Z.to_nat index - 1) value ++ skipn (Z.to_nat index) value)
  /\ (len value < index -> removeCharAt value index = value)
  /\ (index = 0 -> removeCharAt value index = removelast value ++ value).
Proof.
  split; [|split].
  - intros Hi. rewrite <- (Z2Nat.id index) at 1 by lia.
    apply removeCharAt_inside. unfold len in Hi. lia.
  - intros Hi. unfold removeCharAt, slice, sliceFrom, relIndex, len in *.
    destruct (index - 1 <? 0) eqn:E1; [apply Z.ltb_lt in E1; lia|].
    destruct (index <? 0) eqn:E2; [apply Z.ltb_lt in E2; lia|].
    change (0 <? 0) with false. cbv iota.
    replace (Z.to_nat (Z.min 0 (Z.of_nat (length value)))) with 0%nat by lia.
    cbn [skipn]. rewrite firstn_all2 by lia. rewrite skipn_all2 by lia.
    apply app_nil_r.
  - intros ->. unfold removeCharAt, sliceFrom.
    change (0 - 1) with (-1).
    change (relIndex value 0) with (relIndex value (Z.of_nat 0)).
    rewrite relIndex_inside by lia. cbn [skipn]. f_equal.
    destruct value as [|c r] using rev_ind; [reflexivity|].
    rewrite slice_without_last, removelast_last. reflexivity.
Qed.

Lemma removeCharAt_bounds_witness :
  (1 <= 2 <= len js:"1234" -> removeCharAt js:"1234" 2 = js:"134")
  /\ (len js:"1234" < 2 -> removeCharAt js:"1234" 2 = js:"1234")
  /\ (2 = 0 -> removeCharAt js:"1234" 2 = js:"1231234").
Proof.
  split; [intros _; apply (removeCharAt_bounds js:"1234" 2); cbn; lia|].
  split; [cbn; lia | discriminate].
Defined.

(** ** The swap form *)

Lemma isSameToken_sym (a b : Token.Erc20) : isSameToken a b = isSameToken b a.
Proof. unfold isSameToken. rewrite String.eqb_sym, Z.eqb_sym. reflexivity. Qed.

Lemma isSameToken_refl (a : Token.Erc20) : isSameToken a a = true.
Proof. unfold isSameToken. rewrite String.eqb_refl, Z.eqb_refl. reflexivity. Qed.

(** X19. The two sides of the swap never hold the same token: when the
    tokens to buy and to sell differ, they still differ after
    [onChangeToken], whatever the side and the token chosen; choosing the
    token of the other side swaps the two. *)
Theorem onChangeToken_keeps_distinct
    (side : Direction) (token : Token.Erc20) (st : Swap.State) :
  isSameToken (Swap.buyToken st) (Swap.sellToken st) = false ->
  isSameToken (Swap.buyToken (onChangeToken side token st))
    (Swap.sellToken (onChangeToken side token st)) = false.
Proof.
  intros Hd. unfold onChangeToken.
  destruct side; cbv zeta;
    match goal with
    | |- context [if ?c then _ else _] => destruct c eqn:E
    end; cbn [Swap.buyToken Swap.sellToken];
    rewrite isSameToken_sym; assumption || (rewrite isSameToken_sym; exact E).
Qed.

(** X20. The token selectors swap the tokens: as the form wires them, the
    selector of a side passes the token of the other side, which exchanges
    the two tokens and leaves the amount and the direction; pressing a
    selector twice gives the state back. *)
Theorem token_selector_swaps (side : Direction) (st : Swap.State) :
  let other s :=
    match side with
    | sell => Swap.buyToken s
    | buy => Swap.sellToken s
    end in
  onChangeToken side (other st) st
  = {| Swap.buyToken := Swap.sellToken st;
       Swap.sellToken := Swap.buyToken st;
       Swap.amount := Swap.amount st;
       Swap.direction := Swap.direction st |}
  /\ onChangeToken side (other (onChangeToken side (other st) st))
       (onChangeToken side (other st) st)
     = st.
Proof.
  cbv zeta.
  assert (H : onChangeToken side
                match side with
                | sell => Swap.buyToken st
                | buy => Swap.sellToken st
                end st
              = {| Swap.buyToken := Swap.sellToken st;
                   Swap.sellToken := Swap.buyToken st;
                   Swap.amount := Swap.amount st;
                   Swap.direction := Swap.direction st |}).
  { unfold onChangeToken. destruct side; rewrite isSameToken_refl; reflexivity. }
  split; [exact H|]. rewrite H.
  unfold onChangeToken. cbn [Swap.buyToken Swap.sellToken Swap.amount
                               Swap.direction].
  destruct side; rewrite isSameToken_refl; destruct st; reflexivity.
Qed.

(** ** Converting between scales *)

Section Conversion.

Variable bigPow10 : nat -> option Z.

(** X21. Converting an amount to a finer scale and back is exact: for
    scales at most 22 digits apart, [convertDecimals] from [fromDecimals]
    up to [toDecimals] multiplies by the power of ten, and converting the
    result back gives the amount, negative amounts included. The other way
    round the digits below the coarser scale are lost: for a non-negative
    amount the result is the largest multiple of the power of ten not
    above it. *)
Theorem convertDecimals_round_trip (amount : Z) (fromDecimals toDecimals : nat) :
  (fromDecimals <= toDecimals)%nat -> (toDecimals - fromDecimals <= 22)%nat ->
  let scale := 10 ^ Z.of_nat (toDecimals - fromDecimals) in
  convertDecimals bigPow10 amount fromDecimals toDecimals
    = Some (if (fromDecimals <? toDecimals)%nat then amount * scale
            else amount)
  /\ (up <- convertDecimals bigPow10 amount fromDecimals toDecimals ;;
      convertDecimals bigPow10 up toDecimals fromDecimals) = Some amount
  /\ (0 <= amount ->
      exists down back,
        convertDecimals bigPow10 amount toDecimals fromDecimals = Some down
        /\ convertDecimals bigPow10 down fromDecimals toDecimals = Some back
        /\ back <= amount < back + scale /\ back mod scale = 0).
Proof.
  intros Hle Hk. cbv zeta.
  set (k := (toDecimals - fromDecimals)%nat).
  assert (Hpos : 0 < 10 ^ Z.of_nat k) by (apply Z.pow_pos_nonneg; lia).
  assert (Hup : forall a, convertDecimals bigPow10 a fromDecimals toDecimals
            = Some (if (fromDecimals <? toDecimals)%nat
                    then a * 10 ^ Z.of_nat k else a)).
  { intros a. unfold convertDecimals, scaleFactorOf, bind.
    replace (Z.to_nat (Z.abs (Z.of_nat toDecimals - Z.of_nat fromDecimals)))
      with k by lia.
    destruct (Nat.leb_spec k 22) as [_|]; [|lia].
    destruct (Nat.ltb_spec fromDecimals toDecimals) as [Hlt|Hge];
      [reflexivity|].
    destruct (_ =? 0) eqn:E; [apply Z.eqb_eq in E; lia|].
    replace k with 0%nat by lia. change (10 ^ Z.of_nat 0) with 1.
    rewrite Z.quot_1_r. reflexivity. }
  assert (Hdown : forall a, convertDecimals bigPow10 a toDecimals fromDecimals
            = Some (Z.quot a (10 ^ Z.of_nat k))).
  { intros a. unfold convertDecimals, scaleFactorOf, bind.
    replace (Z.to_nat (Z.abs (Z.of_nat fromDecimals - Z.of_nat toDecimals)))
      with k by lia.
    destruct (Nat.leb_spec k 22) as [_|]; [|lia].
    destruct (Nat.ltb_spec toDecimals fromDecimals) as [Hlt|Hge]; [lia|].
    destruct (_ =? 0) eqn:E; [apply Z.eqb_eq in E; lia|]. reflexivity. }
  split; [apply Hup|]. split.
  - rewrite Hup. unfold bind. rewrite Hdown. f_equal.
    destruct (Nat.ltb_spec fromDecimals toDecimals) as [Hlt|Hge].
    + apply Z.quot_mul. lia.
    + replace k with 0%nat by lia. apply Z.quot_1_r.
  - intros Ha. eexists. eexists. rewrite Hdown, Hup.
    split; [reflexivity|]. split; [reflexivity|].
    rewrite Z.quot_div_nonneg by lia.
    pose proof (Z.div_mod amount (10 ^ Z.of_nat k) ltac:(lia)) as Hdm.
    pose proof (Z.mod_pos_bound amount (10 ^ Z.of_nat k) Hpos) as Hb.
    destruct (Nat.ltb_spec fromDecimals toDecimals) as [Hlt|Hge].
    + split; [lia|]. apply Z.mod_mul. lia.
    + replace k with 0%nat in * by lia. change (10 ^ Z.of_nat 0) with 1 in *.
      rewrite Z.div_1_r. split; [lia|]. apply Z.mod_1_r.
Qed.

End Conversion.

(** ** Instances *)

Lemma set_then_undo_witness :
  fst (undo JsNumber Undefined
         (fst (set JsNumber JsNumber_eq_dec (Value (Num 7))
                 {| state := Num 1; history := [Num 0; Num 1; Num 2];
                    index := 1 |})))
  = {| state := Num 1; history := [Num 0; Num 1; Num 7]; index := 1 |}.
Proof.
  apply (set_then_undo JsNumber JsNumber_eq_dec Undefined
           {| state := Num 1; history := [Num 0; Num 1; Num 2]; index := 1 |}
           (Value (Num 7)));
    [split; [cbn; lia | discriminate] | reflexivity | discriminate].
Defined.

Lemma set_discards_future_witness :
  history (fst (set JsNumber JsNumber_eq_dec (Value (Num 7))
                  {| state := Num 1; history := [Num 0; Num 1; Num 2];
                     index := 1 |}))
  = [Num 0; Num 1; Num 7]
  /\ index (fst (set JsNumber JsNumber_eq_dec (Value (Num 7))
                   {| state := Num 1; history := [Num 0; Num 1; Num 2];
                      index := 1 |}))
     = 2
  /\ redo JsNumber JsNumber_eq_dec Undefined
       (fst (set JsNumber JsNumber_eq_dec (Value (Num 7))
               {| state := Num 1; history := [Num 0; Num 1; Num 2];
                  index := 1 |}))
     = ({| state := Num 7; history := [Num 0; Num 1; Num 7]; index := 2 |}, []).
Proof.
  apply (set_discards_future JsNumber JsNumber_eq_dec Undefined
           {| state := Num 1; history := [Num 0; Num 1; Num 2]; index := 1 |}
           (Value (Num 7)));
    [split; [cbn; lia | discriminate] | discriminate].
Defined.

Lemma undo_then_redo_witness :
  redo JsNumber JsNumber_eq_dec Undefined
    (fst (undo JsNumber Undefined
            {| state := Num 1; history := [Num 0; Num 1; Num 2]; index := 1 |}))
  = ({| state := Num 1; history := [Num 0; Num 1; Num 2]; index := 1 |},
     [Num 1]).
Proof.
  apply (undo_then_redo JsNumber JsNumber_eq_dec Undefined
           {| state := Num 1; history := [Num 0; Num 1; Num 2]; index := 1 |});
    [split; [cbn; lia | discriminate] | reflexivity | discriminate
    | discriminate].
Defined.

Lemma redo_then_undo_witness :
  fst (undo JsNumber Undefined
         (fst (redo JsNumber JsNumber_eq_dec Undefined
                 {| state := Num 1; history := [Num 0; Num 1; Num 2];
                    index := 1 |})))
  = {| state := Num 1; history := [Num 0; Num 1; Num 2]; index := 1 |}.
Proof.
  apply (redo_then_undo JsNumber JsNumber_eq_dec Undefined
           {| state := Num 1; history := [Num 0; Num 1; Num 2]; index := 1 |});
    [split; [cbn; lia | discriminate] | reflexivity | discriminate].
Defined.

Lemma undefined_blocks_redo_witness :
  fst (undo JsNumber Undefined
         (fst (set JsNumber JsNumber_eq_dec (Value Undefined)
                 {| state := Num 1; history := [Num 0; Num 1]; index := 1 |})))
  = {| state := Num 1; history := [Num 0; Num 1; Undefined]; index := 1 |}
  /\ 1 + 1 < 3
  /\ redo JsNumber JsNumber_eq_dec Undefined
       (fst (undo JsNumber Undefined
               (fst (set JsNumber JsNumber_eq_dec (Value Undefined)
                       {| state := Num 1; history := [Num 0; Num 1];
                          index := 1 |}))))
     = ({| state := Num 1; history := [Num 0; Num 1; Undefined]; index := 1 |},
        []).
Proof.
  apply (undefined_blocks_redo JsNumber JsNumber_eq_dec Undefined
           {| state := Num 1; history := [Num 0; Num 1]; index := 1 |});
    [split; [cbn; lia | discriminate] | reflexivity | discriminate].
Defined.

Lemma shortcut_undo_redo_witness :
  onKeyDown JsNumber JsNumber_eq_dec Undefined
    {| metaKey := true; shiftKey := true; code := "KeyZ" |}
    (fst (fst (onKeyDown JsNumber JsNumber_eq_dec Undefined
                 {| metaKey := true; shiftKey := false; code := "KeyZ" |}
                 {| state := Num 1; history := [Num 0; Num 1; Num 2];
                    index := 1 |})))
  = ({| state := Num 1; history := [Num 0; Num 1; Num 2]; index := 1 |},
     [Num 1], true)
  /\ snd (onKeyDown JsNumber JsNumber_eq_dec Undefined
            {| metaKey := true; shiftKey := false; code := "KeyZ" |}
            {| state := Num 1; history := [Num 0; Num 1; Num 2]; index := 1 |})
     = true
  /\ (false = false \/ "KeyZ"%string <> "KeyZ"%string ->
      onKeyDown JsNumber JsNumber_eq_dec Undefined
        {| metaKey := false; shiftKey := false; code := "KeyZ" |}
        {| state := Num 1; history := [Num 0; Num 1; Num 2]; index := 1 |}
      = ({| state := Num 1; history := [Num 0; Num 1; Num 2]; index := 1 |},
         [], false)).
Proof.
  apply (shortcut_undo_redo JsNumber JsNumber_eq_dec Undefined
           {| state := Num 1; history := [Num 0; Num 1; Num 2]; index := 1 |}
           {| metaKey := false; shiftKey := false; code := "KeyZ" |});
    [split; [cbn; lia | discriminate] | reflexivity | discriminate
    | discriminate].
Defined.

Lemma edit_then_echo_witness :
  reconcile PeriodDecimal Viem.formatUnits (Viem.parseUnits (fun _ => 0))
    (Some 123400) 2
    {| Input.internalValue := js:"1,234"; Input.cursor := 5 |}
  = Some ({| Input.internalValue := js:"1,234"; Input.cursor := 5 |}, []).
Proof.
  apply (edit_then_echo PeriodDecimal Viem.formatUnits
           (Viem.parseUnits (fun _ => 0))
           {| target_value := js:"1234";
              target_selectionStart := Some 4%nat;
              nativeEvent_inputType := Some "insertText"%string |} 2
           {| n_value := 123400; n_rawValue := js:"1,234";
              n_changedFromProps := false |}).
  reflexivity.
Defined.

Lemma parseUnits_shifts_point_witness :
  parseUnits (Viem.parseUnits (fun _ => 0)) js:"12,5" 3 = Some 12500
  /\ parseUnits (Viem.parseUnits (fun _ => 0)) js:"12" 3 = Some 12000.
Proof.
  apply (parseUnits_shifts_point (fun _ => 0) CommaDecimal js:"12" js:"5" 3);
    [reflexivity | reflexivity | cbn; lia].
Defined.

Lemma reconcile_settles_witness :
  reconcile PeriodDecimal Viem.formatUnits (Viem.parseUnits (fun _ => 0))
    (Some 12345) 1
    {| Input.internalValue := js:"1,234.5"; Input.cursor := 0 |}
  = Some ({| Input.internalValue := js:"1,234.5"; Input.cursor := 0 |}, []).
Proof.
  apply (reconcile_settles (fun _ => 0) 12345 1
           {| Input.internalValue := js:""; Input.cursor := 0 |}
           {| Input.internalValue := js:"1,234.5"; Input.cursor := 0 |}
           [ {| n_value := 12345; n_rawValue := js:"1,234.5";
                n_changedFromProps := true |} ]);
    [lia | reflexivity].
Defined.

Lemma initial_input_reconciled_witness :
  reconcile PeriodDecimal Viem.formatUnits (Viem.parseUnits (fun _ => 0))
    (Some 12345) 1
    {| Input.internalValue := js:"1,234.5"; Input.cursor := 7 |}
  = Some ({| Input.internalValue := js:"1,234.5"; Input.cursor := 7 |}, []).
Proof. apply (initial_input_reconciled (fun _ => 0) 12345 1). lia. Defined.

Lemma onChangeToken_keeps_distinct_witness :
  isSameToken (Swap.buyToken (onChangeToken buy weth initialState))
    (Swap.sellToken (onChangeToken buy weth initialState)) = false.
Proof.
  apply (onChangeToken_keeps_distinct buy weth initialState). reflexivity.
Defined.

Lemma convertDecimals_round_trip_witness :
  convertDecimals (fun _ => None) 1500000 6 18 = Some 1500000000000000000
  /\ (up <- convertDecimals (fun _ => None) 1500000 6 18 ;;
      convertDecimals (fun _ => None) up 18 6) = Some 1500000
  /\ (0 <= 1500000 ->
      exists down back,
        convertDecimals (fun _ => None) 1500000 18 6 = Some down
        /\ convertDecimals (fun _ => None) down 6 18 = Some back
        /\ back <= 1500000 < back + 10 ^ Z.of_nat (18 - 6)
        /\ back mod 10 ^ Z.of_nat (18 - 6) = 0).
Proof.
  apply (convertDecimals_round_trip (fun _ => None) 1500000 6 18); lia.
Defined.
